(** * University of Malakand chatbot: crawler and query engine

    A shallow embedding of [data_scraper.py] and [uom_ai_chatbot.py], and
    the properties of the crawler and of the retrieval / query engine.

    Conventions of the embedding.
    - A Python [str] is a [string]; the text functions ([lower], the
      classes [\w] and [\s], [split], [strip]) are the ASCII fragment of
      Python's Unicode-aware ones.
    - A Python [float] is a rational of [Q]; the arithmetic of the scorer
      is exact here where CPython rounds to binary64.  What is proved of a
      score is its sign and what follows from it; where the last bit
      decides, [calculate_tf_idf_binary64] replays the code with the
      roundings of CPython.
    - Every value of the store is a text: the SQL [NULL], which the loader
      hands over as [None] and on which [lower], a slice or a comparison
      with a text raises [AttributeError] or [TypeError], is outside
      [page] and [row].  The statements about searches and turns are about
      stores whose values are all text.
    - A Python exception is a value of [exn] carried by [result]: the two
      that the code raises on a store of texts.
    - [dict] is [gmap] where only lookups matter and an insertion-ordered
      association list where iteration order matters; [set] is [gset].
    - Logging and [print] are left out, and so are the attributes no
      method reads after construction ([data_dir], [db_path], [logger],
      [search_cache]). *)

From Stdlib Require Import QArith Qfield Ascii.
From Stdlib Require String.
From Stdlib Require Uint63 Floats.
From stdpp Require Import base option list sorting strings gmap.

Local Set Warnings "-clear-no-such-hyp".

(** ** Exceptions *)

Inductive exn : Type :=
| ZeroDivisionError
| FileNotFoundError (msg : string).

Inductive result (A : Type) : Type :=
| Ok (a : A)
| Raise (e : exn).
Arguments Ok {A} a.
Arguments Raise {A} e.

Definition rbind {A B} (m : result A) (k : A → result B) : result B :=
  match m with
  | Ok a => k a
  | Raise e => Raise e
  end.

Notation "x ←r m ; k" := (rbind m (λ x, k))
  (at level 20, m at level 100, k at level 200, only parsing).

(** ** Text primitives (ASCII fragment of Python's [str] and [re]) *)

Module Text.

Definition code (c : ascii) : N := N_of_ascii c.

Definition between (lo hi : N) (c : ascii) : bool :=
  (N.leb lo (code c) && N.leb (code c) hi)%bool.

(** [str.isspace] / [\s] on code points below 128. *)
Definition is_space (c : ascii) : bool :=
  (between 9 13 c || between 28 32 c)%bool.

Definition is_upper (c : ascii) : bool := between 65 90 c.
Definition is_lower (c : ascii) : bool := between 97 122 c.
Definition is_alpha (c : ascii) : bool := (is_upper c || is_lower c)%bool.
Definition is_digit (c : ascii) : bool := between 48 57 c.

(** [\w] on code points below 128. *)
Definition is_word (c : ascii) : bool :=
  (is_alpha c || is_digit c || N.eqb (code c) 95)%bool.

Definition lower_char (c : ascii) : ascii :=
  if is_upper c then ascii_of_N (code c + 32) else c.

Fixpoint map (f : ascii → ascii) (s : string) : string :=
  match s with
  | "" => ""
  | String c s' => String (f c) (map f s')
  end.

(** [s.lower()] *)
Definition lower (s : string) : string := map lower_char s.

(** [len(s)] *)
Definition len (s : string) : nat := String.length s.

(** [s[:n]] *)
Fixpoint take (n : nat) (s : string) : string :=
  match n, s with
  | S n', String c s' => String c (take n' s')
  | _, _ => ""
  end.

(** [p] is a prefix of [s] *)
Fixpoint starts_with (p s : string) : bool :=
  match p, s with
  | "", _ => true
  | String a p', String b s' =>
      if decide (a = b) then starts_with p' s' else false
  | String _ _, "" => false
  end.

(** [sub in s] *)
Fixpoint contains (sub s : string) : bool :=
  (starts_with sub s ||
   match s with
   | "" => false
   | String _ s' => contains sub s'
   end)%bool.

Definition flush (cur : list ascii) : list string :=
  match cur with
  | [] => []
  | _ => [String.string_of_list_ascii (rev cur)]
  end.

(** [cur] holds the characters of the token being read, last first. *)
Fixpoint split_go (cur : list ascii) (s : string) : list string :=
  match s with
  | "" => flush cur
  | String c s' =>
      if is_space c then flush cur ++ split_go [] s'
      else split_go (c :: cur) s'
  end.

(** [s.split()]: the maximal runs of non-whitespace characters. *)
Definition split (s : string) : list string := split_go [] s.

Fixpoint split_on_go (sep : ascii) (cur : list ascii) (s : string)
  : list string :=
  match s with
  | "" => [String.string_of_list_ascii (rev cur)]
  | String c s' =>
      if decide (c = sep)
      then String.string_of_list_ascii (rev cur) :: split_on_go sep [] s'
      else split_on_go sep (c :: cur) s'
  end.

(** [s.split(sep)] for a one-character separator. *)
Definition split_on (sep : ascii) (s : string) : list string :=
  split_on_go sep [] s.

Fixpoint lstrip (s : string) : string :=
  match s with
  | String c s' => if is_space c then lstrip s' else s
  | "" => ""
  end.

Definition rstrip (s : string) : string :=
  String.rev (lstrip (String.rev s)).

(** [s.strip()] *)
Definition strip (s : string) : string := rstrip (lstrip s).

(** The replacement of one character by [re.sub(r'[^\w\s]', ' ', s)]. *)
Definition blank (c : ascii) : ascii :=
  if (is_word c || is_space c)%bool then c else " "%char.

(** [re.sub(r'[^\w\s]', ' ', s)] *)
Definition sub_non_word (s : string) : string := map blank s.

(** The characters of a string. *)
Definition chars (s : string) : list ascii := String.list_ascii_of_string s.

End Text.

(** ** The knowledge base *)

(** A row of the store: [dict(zip(columns, row))], every value a text.  A
    key that is absent is a column the table does not have; a [NULL], which
    is a key present with the value [None], has no counterpart here. *)
Abbreviation row := (gmap string string).

(** [d.get(k, default)] *)
Definition get_default (d : row) (k dflt : string) : string :=
  default dflt (d !! k).

(** An insertion-ordered [dict] with text keys: iteration follows first
    insertion, and assigning to a key already present keeps its place. *)
Module Dict.
Section Dict.
Context {V : Type}.

Fixpoint get (d : list (string * V)) (k : string) : option V :=
  match d with
  | [] => None
  | (k', v) :: d' => if decide (k' = k) then Some v else get d' k
  end.

(** [d[k] = v] *)
Fixpoint set (d : list (string * V)) (k : string) (v : V)
  : list (string * V) :=
  match d with
  | [] => [(k, v)]
  | (k', v') :: d' =>
      if decide (k' = k) then (k, v) :: d' else (k', v') :: set d' k v
  end.
End Dict.
End Dict.

(** A row of [pages]: the four columns the loader selects, each holding a
    text. *)
Record page : Type := Page {
  page_url : string;
  page_title : string;
  page_content : string;
  page_content_type : string
}.

Record SearchResult : Type := mkSearchResult {
  content : string;
  title : string;
  url : string;
  category : string;
  relevance_score : Q;
  snippet : string
}.

Record UniversityKnowledgeBase : Type := mkKB {
  pages : list page;
  faculty : list row;
  departments : list row;
  notifications : list row;
  stopwords : gset string;
  faculty_index : list (string * row);
  department_index : list (string * row)
}.

(** One loop of [build_indexes]: a later row overwrites an earlier one
    under the same case-folded name, in the earlier one's place. *)
Definition index_rows (rows : list row) : list (string * row) :=
  foldl (λ idx r,
           let name := Text.lower (get_default r "name" "") in
           if decide (name = "") then idx else Dict.set idx name r)
        [] rows.

(** [build_indexes]: the faculty index, then the department index. *)
Definition build_indexes (faculty departments : list row)
  : list (string * row) * list (string * row) :=
  (index_rows faculty, index_rows departments).

Definition the_stopwords : gset string :=
  list_to_set
    ["the"; "a"; "an"; "and"; "or"; "but"; "in"; "on"; "at"; "to"; "for";
     "of"; "with"; "by"; "is"; "are"; "was"; "were"; "be"; "been"; "have";
     "has"; "had"; "do"; "does"; "did"; "will"; "would"; "could"; "should"].

(** ** The relevance scorer *)

Definition Qgtb (a b : Q) : bool := negb (Qle_bool a b).

Definition Qnat (n : nat) : Q := inject_Z (Z.of_nat n).

(** [a / b] on numbers: division by zero raises. *)
Definition py_div (a b : Q) : result Q :=
  if Qeq_bool b 0 then Raise ZeroDivisionError else Ok (a / b)%Q.

(** [Counter(words)] *)
Definition Counter (words : list string) : gmap string nat :=
  foldl (λ m w, <[w := S (default 0 (m !! w))]> m) ∅ words.

Section Scorer.
Variable self : UniversityKnowledgeBase.

Definition keep_word (word : string) : bool :=
  bool_decide (word ≠ "") && bool_decide (word ∉ stopwords self)
  && bool_decide (2 < Text.len word).

Definition preprocess_text (text : string) : list string :=
  let text := Text.sub_non_word (Text.lower text) in
  filter (λ word, keep_word word = true) (Text.split text).

(** The loop over the query words: [tf_score] is the running sum. *)
Definition tf_loop (doc_word_freq : gmap string nat) (doc_word_count : nat)
    (query_words : list string) : result Q :=
  foldl (λ acc word,
           tf_score ←r acc;
           tf ←r py_div (Qnat (default 0 (doc_word_freq !! word)))
                        (Qnat doc_word_count);
           Ok (if Qgtb tf 0 then (tf_score + tf)%Q else tf_score))
        (Ok 0%Q) query_words.

Definition calculate_tf_idf (query_words : list string) (document : string)
  : result Q :=
  let doc_words := preprocess_text document in
  let doc_word_count := length doc_words in
  if decide (doc_word_count = 0) then Ok 0%Q
  else
    let doc_word_freq := Counter doc_words in
    tf_score ←r tf_loop doc_word_freq doc_word_count query_words;
    py_div
      (tf_score *
       Qnat (length (filter (λ w, w ∈ doc_words) query_words)))%Q
      (Qnat (length query_words)).
End Scorer.

(** ** The scorer in binary64

    [calculate_tf_idf] once more, with the arithmetic of CPython's
    [float]: the quotient of two [int]s below 2^53 is the correctly rounded
    quotient, which is the binary64 division of the two converted
    operands; [tf_score += tf] and the product with [len(...)] round to
    the nearest binary64; [tf_score], which starts as the [int] 0, has the
    value of the float 0 until the first sum. *)

Definition binary64 : Set := PrimFloat.float.

Definition binary64_of_nat (n : nat) : binary64 :=
  PrimFloat.of_uint63 (Uint63.of_Z (Z.of_nat n)).

Definition binary64_div (a b : binary64) : result binary64 :=
  if PrimFloat.eqb b (binary64_of_nat 0) then Raise ZeroDivisionError
  else Ok (PrimFloat.div a b).

Section ScorerBinary64.
Variable self : UniversityKnowledgeBase.

Definition tf_loop_binary64 (doc_word_freq : gmap string nat)
    (doc_word_count : nat) (query_words : list string) : result binary64 :=
  foldl (λ acc word,
           tf_score ←r acc;
           tf ←r binary64_div
                   (binary64_of_nat (default 0 (doc_word_freq !! word)))
                   (binary64_of_nat doc_word_count);
           Ok (if PrimFloat.ltb (binary64_of_nat 0) tf
               then PrimFloat.add tf_score tf else tf_score))
        (Ok (binary64_of_nat 0)) query_words.

Definition calculate_tf_idf_binary64 (query_words : list string)
    (document : string) : result binary64 :=
  let doc_words := preprocess_text self document in
  let doc_word_count := length doc_words in
  if decide (doc_word_count = 0) then Ok (binary64_of_nat 0)
  else
    let doc_word_freq := Counter doc_words in
    tf_score ←r tf_loop_binary64 doc_word_freq doc_word_count query_words;
    binary64_div
      (PrimFloat.mul tf_score
         (binary64_of_nat
            (length (filter (λ w, w ∈ doc_words) query_words))))
      (binary64_of_nat (length query_words)).
End ScorerBinary64.

(** ** Searching the knowledge base *)

Definition nl : string := String "010" "".

(** [sorted(l, key=..., reverse=True)]: stable, so among equal keys the
    original order stays.  [gt y x] says that the key of [y] is strictly
    above the key of [x]. *)
Section SortDesc.
Context {A : Type} (gt : A → A → bool).

Fixpoint insert_desc (x : A) (l : list A) : list A :=
  match l with
  | [] => [x]
  | y :: l' => if gt y x then y :: insert_desc x l' else x :: y :: l'
  end.

Definition sort_desc (l : list A) : list A := foldr insert_desc [] l.
End SortDesc.

Section KnowledgeBase.
Variable self : UniversityKnowledgeBase.

Definition snippet_score (query_words : list string) (sentence : string)
  : nat :=
  size (list_to_set query_words ∩
        list_to_set (preprocess_text self sentence) : gset string).

Definition create_snippet (content : string) (query_words : list string)
    (snippet_length : nat) : string :=
  let sentences := Text.split_on "." content in
  let '(best_sentence, _) :=
    foldl (λ '(best_sentence, best_score) sentence,
             let score := snippet_score query_words sentence in
             if decide (best_score < score)
             then (Text.strip sentence, score)
             else (best_sentence, best_score))
          ("", 0) sentences in
  let best_sentence :=
    if decide (snippet_length < Text.len best_sentence)
    then Text.take snippet_length best_sentence +:+ "..."
    else best_sentence in
  if decide (best_sentence = "")
  then Text.take snippet_length content +:+ "..."
  else best_sentence.

(** The loop of [semantic_search] over the pages. *)
Fixpoint search_pages (query_words : list string) (ps : list page)
  : result (list SearchResult) :=
  match ps with
  | [] => Ok []
  | p :: ps' =>
      relevance ←r calculate_tf_idf self query_words (page_content p);
      rest ←r search_pages query_words ps';
      Ok (if Qgtb relevance 0
          then mkSearchResult (page_content p) (page_title p) (page_url p)
                 (page_content_type p) relevance
                 (create_snippet (page_content p) query_words 200) :: rest
          else rest)
  end.

Definition semantic_search (query : string) (limit : nat)
  : result (list SearchResult) :=
  let query_words := preprocess_text self query in
  results ←r search_pages query_words (pages self);
  Ok (take limit
        (sort_desc (λ y x, Qgtb (relevance_score y) (relevance_score x))
                   results)).

(** The test of the partial-match loops. *)
Definition partial_match (name_lower key : string) : bool :=
  Text.contains name_lower key
  || existsb (λ part, Text.contains part key) (Text.split name_lower).

Definition find_faculty_by_name (name : string) : option row :=
  let name_lower := Text.lower name in
  match Dict.get (faculty_index self) name_lower with
  | Some faculty_info => Some faculty_info
  | None =>
      snd <$> List.find (λ '(faculty_name, _),
                           partial_match name_lower faculty_name)
                        (faculty_index self)
  end.

Definition get_department_info (dept_name : string) : option row :=
  let dept_lower := Text.lower dept_name in
  match Dict.get (department_index self) dept_lower with
  | Some dept_info => Some dept_info
  | None =>
      snd <$> List.find (λ '(department_name, _),
                           partial_match dept_lower department_name)
                        (department_index self)
  end.

(** [sorted(..., key=lambda x: x.get('date', ''), reverse=True)[:limit]]:
    the dates are compared as texts, and only a row of a table without the
    column [date] takes the default. *)
Definition get_recent_notifications (limit : nat) : list row :=
  take limit
    (sort_desc (λ y x, String.ltb (get_default x "date" "")
                                  (get_default y "date" ""))
               (notifications self)).
End KnowledgeBase.

(** ** Regular expressions

    The patterns of [extract_entities] are sequences of one-character
    atoms, each taken once, optionally ([?]) or one or more times ([+]).
    Matching is greedy and backtracks, as [re] does; the result is the
    number of characters each atom consumed. *)

Module Re.
Inductive quant : Type := One | Opt | Plus.
Definition atom : Type := (ascii → bool) * quant.

(** A literal character under [re.IGNORECASE]. *)
Definition lit (c : ascii) : atom :=
  (λ d, bool_decide (Text.lower_char d = Text.lower_char c), One).
Fixpoint lits (s : string) : list atom :=
  match s with
  | "" => []
  | String c s' => lit c :: lits s'
  end.
(** [\.] , [\s] and [[a-z\s]] under [re.IGNORECASE]. *)
Definition dot : ascii → bool := λ d, bool_decide (d = "."%char).
Definition space : ascii → bool := Text.is_space.
Definition alpha_space : ascii → bool :=
  λ d, Text.is_alpha d || Text.is_space d.

Definition bump (r : option (list nat)) : option (list nat) :=
  match r with
  | Some (n :: ns) => Some (S n :: ns)
  | _ => None
  end.

(** [match_here atoms s]: match [atoms] at the start of [s]. *)
Fixpoint match_here (atoms : list atom) : string → option (list nat) :=
  match atoms with
  | [] => λ _, Some []
  | (p, q) :: rest =>
      let k := match_here rest in
      let one (s : string) : option (list nat) :=
        match s with
        | String c s' => if p c then cons 1 <$> k s' else None
        | "" => None
        end in
      match q with
      | One => one
      | Opt => λ s,
          match one s with
          | Some r => Some r
          | None => cons 0 <$> k s
          end
      | Plus =>
          fix plus (s : string) : option (list nat) :=
            match s with
            | String c s' =>
                if p c then
                  match plus s' with
                  | Some r => bump (Some r)
                  | None => cons 1 <$> k s'
                  end
                else None
            | "" => None
            end
      end
  end.

(** [re.search]: the leftmost start at which the pattern matches; the
    result is the rest of the text from that start and the lengths. *)
Fixpoint search (atoms : list atom) (s : string)
  : option (string * list nat) :=
  match match_here atoms s with
  | Some r => Some (s, r)
  | None =>
      match s with
      | "" => None
      | String _ s' => search atoms s'
      end
  end.

Fixpoint drop (n : nat) (s : string) : string :=
  match n, s with
  | S n', String _ s' => drop n' s'
  | _, _ => s
  end.

(** The text matched by the atoms from index [i] on, given a match. *)
Definition group_from (i : nat) (m : string * list nat) : string :=
  let '(s, lens) := m in
  Text.take (sum_list (list.drop i lens))
            (drop (sum_list (list.take i lens)) s).
End Re.

(** ** The chatbot *)

(** An entry of [conversation_history]. *)
Inductive entry : Type :=
| UserEntry (timestamp query : string)
| BotEntry (timestamp response : string).

Record UniversityAIChatbot : Type := mkChatbot {
  kb : UniversityKnowledgeBase;
  conversation_history : list entry;
  intent_patterns : list (string * list string);
  question_patterns : list (string * string)
}.

Definition the_intent_patterns : list (string * list string) :=
  [("faculty_info", ["faculty"; "professor"; "teacher"; "dr."; "dr "; "staff"]);
   ("admissions", ["admission"; "apply"; "application"; "entry"; "requirement"]);
   ("departments", ["department"; "dept"; "school"; "faculty of"]);
   ("notifications", ["notification"; "news"; "announcement"; "notice"; "update"]);
   ("academics", ["course"; "program"; "degree"; "semester"; "exam"; "result"]);
   ("research", ["research"; "publication"; "journal"; "paper"; "study"]);
   ("contact", ["contact"; "phone"; "email"; "address"; "location"]);
   ("general", ["about"; "history"; "information"; "what is"; "tell me"])].

Definition the_question_patterns : list (string * string) :=
  [("who_is", "who is (.+?)[\?]?"); ("what_is", "what is (.+?)[\?]?");
   ("when_is", "when is (.+?)[\?]?"); ("where_is", "where is (.+?)[\?]?");
   ("how_to", "how to (.+?)[\?]?")].

(** [sum(1 for keyword in keywords if keyword in query_lower)] *)
Definition keyword_hits (keywords : list string) (query_lower : string) : nat :=
  length (filter (λ keyword, Text.contains keyword query_lower = true) keywords).

(** [max(d, key=d.get)]: the first key, in iteration order, whose value
    is the largest; [best] is the candidate so far. *)
Fixpoint max_by_value (best : string * nat) (d : list (string * nat))
  : string :=
  match d with
  | [] => best.1
  | kv :: d' => max_by_value (if decide (best.2 < kv.2) then kv else best) d'
  end.

Definition py_max (d : list (string * nat)) : option string :=
  match d with
  | [] => None
  | kv :: d' => Some (max_by_value kv d')
  end.

(** Does a value count as true: [d.get(k)] for a text column. *)
Definition truthy (d : row) (k : string) : option string :=
  match d !! k with
  | Some v => if decide (v = "") then None else Some v
  | None => None
  end.

Definition name_patterns : list (list Re.atom) :=
  [Re.lits "dr" ++ [(Re.dot, Re.Opt); (Re.space, Re.Plus);
                    (Re.alpha_space, Re.Plus)];
   Re.lits "prof" ++ [(Re.dot, Re.Opt); (Re.space, Re.Plus);
                      (Re.alpha_space, Re.Plus)];
   Re.lits "professor" ++ [(Re.space, Re.Plus); (Re.alpha_space, Re.Plus)]].

Definition dept_keywords : list string :=
  ["department of"; "dept of"; "faculty of"].

(** The [for ... if match: ...; break] loops: the first pattern that
    matches decides. *)
Fixpoint first_match {P : Type} (pattern_of : P → list Re.atom)
    (group : P → nat) (patterns : list P) (query : string) : option string :=
  match patterns with
  | [] => None
  | pat :: patterns' =>
      match Re.search (pattern_of pat) query with
      | Some m => Some (Text.strip (Re.group_from (group pat) m))
      | None => first_match pattern_of group patterns' query
      end
  end.

Section Chatbot.
Variable self : UniversityAIChatbot.

Definition detect_intent (query : string) : string :=
  let query_lower := Text.lower query in
  let intent_scores :=
    foldl (λ intent_scores '(intent, keywords),
             let score := keyword_hits keywords query_lower in
             if decide (0 < score)
             then Dict.set intent_scores intent score
             else intent_scores)
          [] (intent_patterns self) in
  default "general" (py_max intent_scores).

Definition extract_entities (query : string) : gmap string string :=
  let entities : gmap string string := ∅ in
  let entities :=
    match first_match id (λ _, 0) name_patterns query with
    | Some person => <["person" := person]> entities
    | None => entities
    end in
  match first_match
          (λ keyword, Re.lits keyword ++
                      [(Re.space, Re.Plus); (Re.alpha_space, Re.Plus)])
          (λ keyword, S (Text.len keyword)) dept_keywords query with
  | Some department => <["department" := department]> entities
  | None => entities
  end.

(** [f"**{result.title}**\n{result.snippet}\n\n"] *)
Definition titled (result : SearchResult) : string :=
  "**" +:+ title result +:+ "**" +:+ nl +:+ snippet result +:+ nl +:+ nl.

(** [for x in xs: response += f x] *)
Definition extend {A} (f : A → string) (response : string) (xs : list A)
  : string :=
  foldl (λ response x, response +:+ f x) response xs.

(** [if d.get(k): response += f(d[k])] *)
Definition add_if (d : row) (k : string) (f : string → string)
    (response : string) : string :=
  match truthy d k with
  | Some v => response +:+ f v
  | None => response
  end.

Definition faculty_card (faculty_info : row) : string :=
  let response := "**" +:+ get_default faculty_info "name" "N/A" +:+ "**" +:+ nl in
  let response := add_if faculty_info "designation"
                    (λ v, "Position: " +:+ v +:+ nl) response in
  let response := add_if faculty_info "department"
                    (λ v, "Department: " +:+ v +:+ nl) response in
  let response := add_if faculty_info "email"
                    (λ v, "Email: " +:+ v +:+ nl) response in
  let response := add_if faculty_info "research_interests"
                    (λ v, "Research Interests: " +:+ v +:+ nl) response in
  add_if faculty_info "bio"
    (λ v, nl +:+ "Bio: " +:+ Text.take 200 v +:+ "...") response.

Definition handle_faculty_query (query : string)
    (entities : gmap string string) : result string :=
  let faculty_info :=
    person ← entities !! "person";
    faculty_info ← find_faculty_by_name (kb self) person;
    if decide (faculty_info = ∅) then None else Some faculty_info in
  match faculty_info with
  | Some faculty_info => Ok (faculty_card faculty_info)
  | None =>
      search_results ←r semantic_search (kb self) query 3;
      let faculty_results :=
        filter (λ r, category r = "faculty") search_results in
      match faculty_results with
      | _ :: _ =>
          Ok (extend titled ("Here's what I found about faculty:" +:+ nl +:+ nl)
                     (take 2 faculty_results))
      | [] =>
          Ok "I couldn't find specific faculty information. Could you provide more details or check the faculty directory on the university website?"
      end
  end.

Definition handle_admissions_query (query : string) : result string :=
  search_results ←r semantic_search (kb self) query 5;
  let admission_results :=
    filter (λ r, category r = "admissions"
                 ∨ Text.contains "admission" (Text.lower (title r)) = true)
           search_results in
  match admission_results with
  | _ :: _ =>
      Ok (extend titled ("**Admissions Information:**" +:+ nl +:+ nl)
                 (take 3 admission_results)
          +:+ nl +:+ "For the most current admission requirements and deadlines, please visit the university's official admissions page.")
  | [] =>
      general_results ←r semantic_search (kb self) query 2;
      match general_results with
      | _ :: _ =>
          Ok (extend (λ result, snippet result +:+ nl +:+ nl)
                     ("Here's what I found about admissions:" +:+ nl +:+ nl)
                     general_results)
      | [] =>
          Ok "For detailed admission information, please visit the university's official website or contact the admissions office directly."
      end
  end.

Definition department_card (dept_info : row) : string :=
  let response := "**" +:+ get_default dept_info "name" "Department" +:+ "**" +:+ nl in
  let response := add_if dept_info "description"
                    (λ v, "Description: " +:+ v +:+ nl) response in
  let response := add_if dept_info "head"
                    (λ v, "Department Head: " +:+ v +:+ nl) response in
  let response := add_if dept_info "faculty_count"
                    (λ v, "Faculty Members: " +:+ v +:+ nl) response in
  add_if dept_info "programs" (λ v, "Programs: " +:+ v +:+ nl) response.

Definition handle_department_query (query : string)
    (entities : gmap string string) : result string :=
  let dept_info :=
    department ← entities !! "department";
    dept_info ← get_department_info (kb self) department;
    if decide (dept_info = ∅) then None else Some dept_info in
  match dept_info with
  | Some dept_info => Ok (department_card dept_info)
  | None =>
      search_results ←r semantic_search (kb self) query 3;
      let dept_results :=
        filter (λ r, category r = "department") search_results in
      match dept_results with
      | _ :: _ =>
          Ok (extend titled ("Here's information about departments:" +:+ nl +:+ nl)
                     dept_results)
      | [] =>
          Ok "I couldn't find specific department information. Please provide more details about which department you're interested in."
      end
  end.

Definition notification_item (notification : row) : string :=
  let item := "‚Ä¢ **" +:+ get_default notification "title" "No Title"
              +:+ "**" +:+ nl in
  let item := add_if notification "date"
                (λ v, "  Date: " +:+ v +:+ nl) item in
  add_if notification "content"
    (λ v, "  " +:+ Text.take 100 v +:+ "..." +:+ nl +:+ nl) item.

Definition handle_notifications_query (query : string) : result string :=
  let recent_notifications := get_recent_notifications (kb self) 5 in
  match recent_notifications with
  | _ :: _ =>
      Ok (extend notification_item
                 ("**Recent University Notifications:**" +:+ nl +:+ nl)
                 recent_notifications)
  | [] =>
      search_results ←r semantic_search (kb self) query 3;
      let notification_results :=
        filter (λ r, category r = "notifications") search_results in
      match notification_results with
      | _ :: _ =>
          Ok (extend titled ("**University Updates:**" +:+ nl +:+ nl)
                     notification_results)
      | [] =>
          Ok "Please check the university's official website for the latest notifications and announcements."
      end
  end.

(** The thresholds 0.1 and 0.05 are the rationals 1/10 and 1/20, and the
    scores they are compared with are exact. *)
Definition handle_general_query (query : string) : result string :=
  search_results ←r semantic_search (kb self) query 5;
  match search_results with
  | [] =>
      Ok "I'm sorry, I couldn't find specific information about that. Could you please rephrase your question or be more specific?"
  | _ :: _ =>
      let high_relevance :=
        filter (λ r, Qgtb (relevance_score r) (1 # 10) = true)
               search_results in
      let medium_relevance :=
        filter (λ r, Qgtb (relevance_score r) (5 # 100) = true
                     ∧ Qle_bool (relevance_score r) (1 # 10) = true)
               search_results in
      let response := "" in
      let response :=
        match high_relevance with
        | _ :: _ =>
            extend titled (response +:+ "Here's what I found:" +:+ nl +:+ nl)
                   (take 2 high_relevance)
        | [] => response
        end in
      let response :=
        match medium_relevance with
        | _ :: _ =>
            if decide (length high_relevance < 2)
            then extend titled
                   (response +:+ "Additional information:" +:+ nl +:+ nl)
                   (take 1 medium_relevance)
            else response
        | [] => response
        end in
      Ok (response +:+ nl +:+ "üí° *You can ask me about faculty members, departments, admissions, research, or recent notifications.*")
  end.

Definition generate_response (query : string) : result string :=
  let intent := detect_intent query in
  let entities := extract_entities query in
  if decide (intent = "faculty_info") then
    handle_faculty_query query entities
  else if decide (intent = "admissions") then
    handle_admissions_query query
  else if decide (intent = "departments") then
    handle_department_query query entities
  else if decide (intent = "notifications") then
    handle_notifications_query query
  else
    handle_general_query query.
End Chatbot.

(** [self.conversation_history.append(e)] *)
Definition log (self : UniversityAIChatbot) (e : entry) : UniversityAIChatbot :=
  mkChatbot (kb self) (conversation_history self ++ [e])
            (intent_patterns self) (question_patterns self).

(** [chat]: [now1] and [now2] are the two readings of the clock.  The
    result is what the call returns or raises, and the object after it. *)
Definition chat (self : UniversityAIChatbot) (now1 now2 : string)
    (query : string) : result string * UniversityAIChatbot :=
  let self := log self (UserEntry now1 query) in
  match generate_response self query with
  | Ok response => (Ok response, log self (BotEntry now2 response))
  | Raise e => (Raise e, self)
  end.

(** ** Construction: loading the store *)

(** The four tables of [university_knowledge.db]. *)
Record database : Type := Database {
  tbl_pages : list page;
  tbl_faculty : list row;
  tbl_departments : list row;
  tbl_notifications : list row
}.

(** The database files that exist, by path. *)
Abbreviation filesystem := (gmap string database).

(** [Path(data_dir) / "university_knowledge.db"] *)
Definition db_path (data_dir : string) : string :=
  data_dir +:+ "/" +:+ "university_knowledge.db".

Definition load_knowledge_base (fs : filesystem) (data_dir : string)
  : result database :=
  match fs !! db_path data_dir with
  | None =>
      Raise (FileNotFoundError
               ("Knowledge base not found at " +:+ db_path data_dir
                +:+ ". Please run data_scraper.py first."))
  | Some db => Ok db
  end.

(** [UniversityKnowledgeBase.__init__] *)
Definition UniversityKnowledgeBase_init (fs : filesystem) (data_dir : string)
  : result UniversityKnowledgeBase :=
  db ←r load_knowledge_base fs data_dir;
  let '(faculty_index, department_index) :=
    build_indexes (tbl_faculty db) (tbl_departments db) in
  Ok (mkKB (tbl_pages db) (tbl_faculty db) (tbl_departments db)
           (tbl_notifications db) the_stopwords
           faculty_index department_index).

(** [UniversityAIChatbot.__init__] *)
Definition UniversityAIChatbot_init (fs : filesystem) (data_dir : string)
  : result UniversityAIChatbot :=
  kb ←r UniversityKnowledgeBase_init fs data_dir;
  Ok (mkChatbot kb [] the_intent_patterns the_question_patterns).

(** ** The crawler ([data_scraper.py]) *)

Module Scraper.

(** What [urlparse] gives, as far as the crawler reads it. *)
Record parsed : Type := Parsed {
  scheme : string;
  netloc : string;
  path : string
}.

(** What the crawler reads of a parsed page: the [href] of every anchor
    that has one and the text of every paragraph, in document order. *)
Record soup : Type := Soup {
  anchors : list string;
  paragraphs : list string
}.

(** The module's globals, the files under [output_dir], and the trace
    of the URLs requested so far. *)
Record globals : Type := Globals {
  visited_urls : gset string;
  pdf_links : list string;
  files : gmap string string;
  requested : list string
}.

Definition base_url : string := "https://uom.edu.pk".
Definition output_dir : string := "university_data".

(** The globals when the module has just been loaded; [files0] are the
    files a former run left under [output_dir]. *)
Definition initial (files0 : gmap string string) : globals :=
  Globals ∅ [] files0 [].

Fixpoint ends_with_rev (xs s : list ascii) : bool :=
  match xs, s with
  | [], _ => true
  | x :: xs', c :: s' => bool_decide (x = c) && ends_with_rev xs' s'
  | _ :: _, [] => false
  end.

(** [s.endswith(suffix)] *)
Definition ends_with (suffix s : string) : bool :=
  ends_with_rev (rev (String.list_ascii_of_string suffix))
                (rev (String.list_ascii_of_string s)).

Fixpoint lstrip_char (x : ascii) (s : string) : string :=
  match s with
  | String c s' => if decide (c = x) then lstrip_char x s' else s
  | "" => ""
  end.

(** [s.strip(x)] for a one-character [x] *)
Definition strip_char (x : ascii) (s : string) : string :=
  String.rev (lstrip_char x (String.rev (lstrip_char x s))).

(** [s.replace(x, y)] for one-character [x] and [y] *)
Definition replace_char (x y : ascii) (s : string) : string :=
  Text.map (λ c, if decide (c = x) then y else c) s.

(** [' '.join(l)] *)
Fixpoint join_space (l : list string) : string :=
  match l with
  | [] => ""
  | [s] => s
  | s :: l' => s +:+ " " +:+ join_space l'
  end.

(** [re.sub(r'\s+', ' ', s)]; [in_run] says that the previous character
    was whitespace. *)
Fixpoint collapse_go (in_run : bool) (s : string) : string :=
  match s with
  | "" => ""
  | String c s' =>
      if Text.is_space c
      then (if in_run then collapse_go true s'
            else String " " (collapse_go true s'))
      else String c (collapse_go false s')
  end.
Definition collapse_ws (s : string) : string := collapse_go false s.

Section Web.
(** [requests.get(url, timeout=5)] with [raise_for_status] and the
    parse: [None] when a [RequestException] is raised. *)
Variable http_get : string → option soup.
Variable urljoin : string → string → string.
Variable urlparse : string → parsed.

Definition is_valid (url : string) : bool :=
  bool_decide (scheme (urlparse url) ∈ ["http"; "https"])
  && bool_decide (netloc (urlparse url) = netloc (urlparse base_url)).

(** [full_url.split('#')[0]] when ['#' in full_url] *)
Definition strip_fragment (full_url : string) : string :=
  if Text.contains "#" full_url
  then default "" (head (Text.split_on "#" full_url))
  else full_url.

Definition get_all_links (url : string) (g : globals)
  : (list string * option soup) * globals :=
  let g := Globals (visited_urls g) (pdf_links g) (files g)
                   (requested g ++ [url]) in
  match http_get url with
  | Some page =>
      let links : gset string :=
        foldl (λ links href,
                 let full_url := strip_fragment (urljoin url href) in
                 if is_valid full_url
                    && bool_decide (full_url ∉ visited_urls g)
                 then links ∪ {[full_url]} else links)
              ∅ (anchors page) in
      ((elements links, Some page),
       Globals (visited_urls g ∪ {[url]}) (pdf_links g) (files g)
               (requested g))
  | None => (([], None), g)
  end.

Definition save_content (url content : string) (g : globals) : globals :=
  let path := path (urlparse url) in
  let filename := replace_char "/" "_" (strip_char "/" path) in
  let filename := if decide (filename = "") then "index" else filename in
  let filepath := output_dir +:+ "/" +:+ filename +:+ ".txt" in
  match files g !! filepath with
  | None => Globals (visited_urls g) (pdf_links g)
                    (<[filepath := content]> (files g)) (requested g)
  | Some _ => g
  end.

Definition find_pdfs (page : soup) (url : string) (g : globals) : globals :=
  foldl (λ g href,
           let full_url := urljoin url href in
           if ends_with ".pdf" (Text.lower full_url)
              && bool_decide (full_url ∉ pdf_links g)
           then Globals (visited_urls g) (pdf_links g ++ [full_url])
                        (files g) (requested g)
           else g)
        g (anchors page).

(** [for link in links: if link not in visited_urls: ...] *)
Definition enqueue (links : list string) (queue : list string)
    (g : globals) : list string * globals :=
  foldl (λ '(queue, g) link,
           if decide (link ∈ visited_urls g) then (queue, g)
           else (queue ++ [link],
                 Globals (visited_urls g ∪ {[link]}) (pdf_links g)
                         (files g) (requested g)))
        (queue, g) links.

(** One turn of [while queue:]; [None] when the queue is empty. *)
Definition crawl_step (st : list string * globals)
  : option (list string * globals) :=
  match st with
  | ([], _) => None
  | (current_url :: queue, g) =>
      let '((links, page), g) := get_all_links current_url g in
      match page with
      | Some page =>
          let page_text :=
            Text.strip (collapse_ws (join_space (paragraphs page))) in
          let g := if decide (page_text = "") then g
                   else save_content current_url page_text g in
          let g := find_pdfs page current_url g in
          Some (enqueue links queue g)
      | None => Some (queue, g)
      end
  end.

(** The state on entry to the loop of [crawl(start_url)]. *)
Definition crawl_start (start_url : string) (g : globals)
  : list string * globals :=
  ([start_url],
   Globals (visited_urls g ∪ {[start_url]}) (pdf_links g) (files g)
           (requested g)).

(** The loop after at most [n] turns: [inl] when it has ended, [inr]
    when it is still running. *)
Fixpoint crawl_loop (n : nat) (st : list string * globals)
  : globals + list string * globals :=
  match n with
  | 0 => match st with ([], g) => inl g | _ => inr st end
  | S n' =>
      match crawl_step st with
      | None => inl st.2
      | Some st' => crawl_loop n' st'
      end
  end.

Definition crawl (n : nat) (start_url : string) (g : globals)
  : globals + list string * globals :=
  crawl_loop n (crawl_start start_url g).
End Web.

(** [urlparse] on plain absolute URLs, [scheme://host/path]. *)
Fixpoint until (stop : ascii) (s : string) : string * string :=
  match s with
  | "" => ("", "")
  | String c s' =>
      if decide (c = stop) then ("", s)
      else let '(a, b) := until stop s' in (String c a, b)
  end.

Definition plain_urlparse (url : string) : parsed :=
  let '(sch, rest) := until ":" url in
  match rest with
  | String ":" (String "/" (String "/" r)) =>
      let '(host, p) := until "/" r in Parsed sch host p
  | _ => Parsed "" "" url
  end.

(** [urljoin] when every [href] is an absolute URL. *)
Definition absolute_urljoin (url href : string) : string := href.

(** A site without end: every page links to the page one level down. *)
Definition chain_get (url : string) : option soup :=
  Some (Soup [url +:+ "/a"] []).

Fixpoint chain_url (k : nat) : string :=
  match k with
  | 0 => base_url
  | S k' => chain_url k' +:+ "/a"
  end.

(** What follows the host in the URLs of the chain. *)
Fixpoint chain_tail (k : nat) : string :=
  match k with
  | 0 => ""
  | S k' => chain_tail k' +:+ "/a"
  end.

(** The value of [MAX_PAGES] in the configuration [setup.py] writes. *)
Definition MAX_PAGES : nat := 500.

(** A site of three pages; the two linked from the home page fail. *)
Definition broken_get (url : string) : option soup :=
  if decide (url = base_url)
  then Some (Soup ["https://uom.edu.pk/news"; "https://uom.edu.pk/staff"]
                  ["Welcome to the University of Malakand."])
  else None.

(** The URLs admitted to the queue so far, in the order of admission:
    those already taken from it, then those waiting in it. *)
Definition admitted (st : list string * globals) : list string :=
  requested st.2 ++ st.1.

(** No URL was admitted twice, and every admitted URL is marked visited. *)
Definition admitted_once (st : list string * globals) : Prop :=
  NoDup (admitted st) ∧ ∀ u, u ∈ admitted st → u ∈ visited_urls st.2.
End Scraper.

(** What a crawl keeps true at every turn, for a crawl started at [start]
    with the files [files0] in place, on a site all of whose admissible
    link targets satisfy [P]: no URL is admitted twice, the visited set
    is the set of the admitted URLs, every admitted URL is the start URL
    or satisfies [P], the files in place are still there, and the PDF
    list has no duplicate and only URLs ending in [.pdf]. *)
Definition crawl_invariant (start : string) (P : string → Prop)
    (files0 : gmap string string)
    (st : list string * Scraper.globals) : Prop :=
  NoDup (Scraper.admitted st)
  ∧ Scraper.visited_urls st.2 = list_to_set (Scraper.admitted st)
  ∧ Forall (λ u, u = start ∨ P u) (Scraper.admitted st)
  ∧ files0 ⊆ Scraper.files st.2
  ∧ NoDup (Scraper.pdf_links st.2)
  ∧ Forall (λ u, Scraper.ends_with ".pdf" (Text.lower u) = true)
           (Scraper.pdf_links st.2).

(** A site of two pages that link to each other and to themselves. *)
Definition cycle_get (url : string) : option Scraper.soup :=
  if decide (url = Scraper.base_url)
  then Some (Scraper.Soup ["https://uom.edu.pk/about#top";
                          "https://uom.edu.pk"]
                         ["Home."])
  else if decide (url = "https://uom.edu.pk/about")
  then Some (Scraper.Soup ["https://uom.edu.pk"; "https://uom.edu.pk/about";
                          "https://example.org/away"]
                         ["About."])
  else None.

(** ** Reference formulas for the score *)

(** [count(token in docTokens)] *)
Definition count (token : string) (doc_tokens : list string) : nat :=
  length (filter (λ w, w = token) doc_tokens).

(** The sum over the query tokens of [count(token in docTokens)/n]. *)
Definition term_frequency_sum (query_tokens doc_tokens : list string) : Q :=
  foldr (λ token s,
           (Qnat (count token doc_tokens) / Qnat (length doc_tokens) + s)%Q)
        0%Q query_tokens.

(** The number of document tokens that are query tokens, each counted
    once for every occurrence of it in the query. *)
Definition total_count (query_tokens doc_tokens : list string) : nat :=
  sum_list ((λ w, count w doc_tokens) <$> query_tokens).

(** The query tokens present in the document, each as often as the query
    has it. *)
Definition present (query_tokens doc_tokens : list string) : list string :=
  filter (λ w, w ∈ doc_tokens) query_tokens.


(** The same with the coverage factor counting the present query tokens
    with their repetitions. *)
Definition repeat_score (self : UniversityKnowledgeBase)
    (query_tokens : list string) (document_text : string) : Q :=
  let doc_tokens := preprocess_text self document_text in
  if decide (length doc_tokens = 0) then 0%Q
  else (term_frequency_sum query_tokens doc_tokens *
        (Qnat (length (present query_tokens doc_tokens))
         / Qnat (length query_tokens)))%Q.

(** A knowledge base with the stop-words of the constructor and nothing
    stored. *)
Definition empty_kb : UniversityKnowledgeBase :=
  mkKB [] [] [] [] the_stopwords [] [].

(** The pairs of [intent_scores]: the categories that hit, in the order
    of the table, with their counts. *)
Definition scored (query_lower : string)
    (patterns : list (string * list string)) : list (string * nat) :=
  filter (λ kv, 0 < kv.2)
         ((λ '(intent, keywords), (intent, keyword_hits keywords query_lower))
            <$> patterns).

(** [sub] occurs in [s]. *)
Definition substring (sub s : string) : Prop :=
  ∃ pre post, s = pre +:+ sub +:+ post.

(** The characters [a] occur, in a row, among the characters [b]. *)
Definition occurs_in (a b : list ascii) : Prop :=
  ∃ pre post, b = pre ++ a ++ post.

(** The test of the partial match in words: the whole lower-cased query,
    or one of its whitespace-separated tokens, occurs in the key. *)
Definition partially_matches (name_lower key : string) : Prop :=
  substring name_lower key
  ∨ ∃ part, part ∈ Text.split name_lower ∧ substring part key.

(** A store with one page, and the file system that holds it. *)
Definition sample_db : database :=
  Database
    [Page "https://uom.edu.pk/about" "About"
          "University of Malakand was established in 2001." "general"]
    [] [] [].

Definition sample_fs : filesystem :=
  {[ db_path "university_data" := sample_db ]}.

(** A knowledge base with three dated notifications, two of one day. *)
Definition news_kb : UniversityKnowledgeBase :=
  mkKB [] [] []
    [{[ "title" := "Admissions open"; "date" := "2024-03-01" ]};
     {[ "title" := "Convocation"; "date" := "2024-05-20" ]};
     {[ "title" := "Sports gala"; "date" := "2024-03-01" ]}]
    the_stopwords [] [].

(** A store with two faculty members and one department. *)
Definition staff_db : database :=
  Database []
    [{[ "name" := "Dr. Ali Khan"; "designation" := "Professor" ]};
     {[ "name" := "Dr. Sara Ahmad"; "department" := "Physics" ]}]
    [{[ "name" := "Computer Science"; "head" := "Dr. Ali Khan" ]}]
    [].

Definition staff_fs : filesystem :=
  {[ db_path "university_data" := staff_db ]}.

(** The texts the handlers return when they find nothing, one per
    handler: faculty, admissions, departments, notifications, general. *)
Definition fallback_texts : list string :=
  ["I couldn't find specific faculty information. Could you provide more details or check the faculty directory on the university website?";
   "For detailed admission information, please visit the university's official website or contact the admissions office directly.";
   "I couldn't find specific department information. Please provide more details about which department you're interested in.";
   "Please check the university's official website for the latest notifications and announcements.";
   "I'm sorry, I couldn't find specific information about that. Could you please rephrase your question or be more specific?"].

(** * Properties *)

(** ** Text *)

Module TextFacts.
Import Text.

Lemma map_app f a b : map f (a +:+ b) = map f a +:+ map f b.
Proof. induction a as [|c a IH]; simpl; [done | by rewrite IH]. Qed.

Lemma lower_app a b : lower (a +:+ b) = lower a +:+ lower b.
Proof. apply map_app. Qed.

Lemma sub_non_word_app a b :
  sub_non_word (a +:+ b) = sub_non_word a +:+ sub_non_word b.
Proof. apply map_app. Qed.

(** Splitting a text whose two parts are separated by a whitespace
    character splits the parts. *)
Lemma split_go_sep cur a sp b :
  is_space sp = true →
  split_go cur (a +:+ String sp b) = split_go cur a ++ split_go [] b.
Proof.
  intros Hsp. revert cur.
  induction a as [|c a IH]; intros cur; simpl.
  - by rewrite Hsp.
  - destruct (is_space c); [|apply IH].
    by rewrite IH, (assoc (++)).
Qed.

Lemma split_sep a sp b :
  is_space sp = true → split (a +:+ String sp b) = split a ++ split b.
Proof. apply split_go_sep. Qed.


Lemma chars_of_list l : chars (String.string_of_list_ascii l) = l.
Proof. apply String.list_ascii_of_string_of_list_ascii. Qed.

Lemma of_list_chars s : String.string_of_list_ascii (chars s) = s.
Proof. apply String.string_of_list_ascii_of_string. Qed.

Lemma map_id_on f s : Forall (λ c, f c = c) (chars s) → map f s = s.
Proof.
  induction s as [|c s IH]; simpl; [done|].
  intros [Hc Hs]%Forall_cons. by rewrite Hc, IH.
Qed.

Lemma chars_map f s : chars (map f s) = f <$> chars s.
Proof.
  unfold chars. induction s as [|c s IH]; simpl; [done | by rewrite IH].
Qed.

Lemma chars_nil s : chars s = [] → s = "".
Proof. by destruct s. Qed.

Lemma flush_tokens (R : ascii → Prop) cur t :
  Forall R cur → t ∈ flush cur → t ≠ "" ∧ Forall R (chars t).
Proof.
  intros Hcur. destruct cur as [|c cur]; simpl; [by intros ?%elem_of_nil|].
  intros ->%list_elem_of_singleton. split.
  - intros Hnil. apply (f_equal chars) in Hnil.
    rewrite chars_of_list in Hnil. by destruct (rev cur).
  - rewrite chars_of_list. apply Forall_app. split.
    + apply Forall_rev. by eapply Forall_cons_1.
    + apply Forall_singleton. by eapply Forall_cons_1.
Qed.

(** Every token of a split is non-empty and made of non-whitespace
    characters of the text (or of the token under way). *)
Lemma split_go_tokens (P : ascii → Prop) cur s t :
  Forall (λ c, P c ∧ is_space c = false) cur →
  Forall P (chars s) →
  t ∈ split_go cur s →
  t ≠ "" ∧ Forall (λ c, P c ∧ is_space c = false) (chars t).
Proof.
  revert cur. induction s as [|c s IH]; intros cur Hcur Hs; simpl.
  - by apply flush_tokens.
  - apply Forall_cons in Hs as [Hc Hs].
    destruct (is_space c) eqn:Hsp.
    + intros [Ht|Ht]%elem_of_app.
      * by eapply flush_tokens.
      * by apply (IH []).
    + apply IH; [|done]. by apply Forall_cons.
Qed.

Lemma split_tokens (P : ascii → Prop) s t :
  Forall P (chars s) → t ∈ split s →
  t ≠ "" ∧ Forall (λ c, P c ∧ is_space c = false) (chars t).
Proof. intros. by eapply (split_go_tokens P []). Qed.

(** A text without whitespace is its own only token. *)
Lemma split_go_no_space cur t :
  Forall (λ c, is_space c = false) (chars t) →
  split_go cur t = flush (rev (chars t) ++ cur).
Proof.
  revert cur. induction t as [|c t IH]; intros cur; [done|].
  intros [Hc Ht]%Forall_cons. simpl. rewrite Hc, IH by done.
  change (chars (String c t)) with (c :: chars t).
  simpl. by rewrite <- (assoc (++)).
Qed.

Lemma split_token t :
  t ≠ "" → Forall (λ c, is_space c = false) (chars t) → split t = [t].
Proof.
  intros Hne Ht. unfold split. rewrite split_go_no_space by done.
  rewrite app_nil_r. unfold flush.
  destruct (rev (chars t)) as [|c l] eqn:Hrev.
  - apply (f_equal (@rev ascii)) in Hrev. rewrite rev_involutive in Hrev.
    by apply chars_nil in Hrev.
  - by rewrite <- Hrev, rev_involutive, of_list_chars.
Qed.


(** After lower-casing and blanking, a character is unchanged by both. *)
Lemma cleaned_char c :
  let d := blank (lower_char c) in lower_char d = d ∧ blank d = d.
Proof. by destruct c as [[] [] [] [] [] [] [] []]. Qed.
End TextFacts.

(** ** The scorer *)

Section ScorerFacts.
Variable self : UniversityKnowledgeBase.

Lemma preprocess_text_append doc t :
  preprocess_text self (doc +:+ " " +:+ t)
  = preprocess_text self doc ++ preprocess_text self t.
Proof.
  unfold preprocess_text.
  rewrite TextFacts.lower_app, TextFacts.sub_non_word_app.
  change (Text.sub_non_word (Text.lower (" " +:+ t)))
    with (String " " (Text.sub_non_word (Text.lower t))).
  by rewrite TextFacts.split_sep, filter_app.
Qed.

(** A token that survived preprocessing survives it again, unchanged. *)
Lemma preprocess_text_token query t :
  t ∈ preprocess_text self query → preprocess_text self t = [t].
Proof.
  unfold preprocess_text. intros [Hkeep Ht]%list_elem_of_filter.
  apply (TextFacts.split_tokens
           (λ d, Text.lower_char d = d ∧ Text.blank d = d)) in Ht.
  - destruct Ht as [Hne Ht].
    assert (Text.lower t = t) as ->.
    { apply TextFacts.map_id_on. eapply Forall_impl; [done|].
      by intros c [[? ?] ?]. }
    assert (Text.sub_non_word t = t) as ->.
    { apply TextFacts.map_id_on. eapply Forall_impl; [done|].
      by intros c [[? ?] ?]. }
    rewrite TextFacts.split_token; [|done|].
    + by rewrite filter_cons_True, filter_nil.
    + eapply Forall_impl; [done|]. by intros c [[? ?] ?].
  - unfold Text.sub_non_word, Text.lower.
    rewrite !TextFacts.chars_map, <- list_fmap_compose.
    apply Forall_fmap, Forall_true. intros c. apply TextFacts.cleaned_char.
Qed.

Lemma Counter_get words w :
  default 0 (Counter words !! w) = count w words.
Proof.
  unfold Counter, count.
  enough (∀ m, default 0 (foldl (λ m w, <[w := S (default 0 (m !! w))]> m)
                                m words !! w)
               = default 0 (m !! w) + length (filter (λ x, x = w) words))
    as -> by by rewrite lookup_empty.
  induction words as [|x words IH]; intros m; simpl; [lia|].
  rewrite IH. destruct (decide (x = w)) as [->|Hne].
  - rewrite lookup_insert_eq, filter_cons_True by done. simpl. lia.
  - by rewrite lookup_insert_ne, filter_cons_False by done.
Qed.

Lemma py_div_nat a n :
  n ≠ 0 → py_div a (Qnat n) = Ok (a / Qnat n)%Q.
Proof. intros Hn. unfold py_div. by destruct n. Qed.

Lemma Qgtb_nat_div c n :
  n ≠ 0 → Qgtb (Qnat c / Qnat n) 0 = bool_decide (c ≠ 0).
Proof. intros Hn. destruct n; [done|]. by destruct c. Qed.

Lemma tf_loop_sum doc_words query_words :
  length doc_words ≠ 0 →
  ∃ r, tf_loop (Counter doc_words) (length doc_words) query_words = Ok r
       ∧ (r == term_frequency_sum query_words doc_words)%Q.
Proof.
  intros Hn. unfold tf_loop.
  enough (∀ acc, ∃ r,
    foldl (λ acc word,
             tf_score ←r acc;
             tf ←r py_div (Qnat (default 0 (Counter doc_words !! word)))
                          (Qnat (length doc_words));
             Ok (if Qgtb tf 0 then (tf_score + tf)%Q else tf_score))
          (Ok acc) query_words = Ok r
    ∧ (r == acc + term_frequency_sum query_words doc_words)%Q) as Hgen.
  { destruct (Hgen 0%Q) as (r & Hr & Heq).
    exists r. split; [done|]. by rewrite Heq, Qplus_0_l. }
  induction query_words as [|w qw IH]; intros acc; simpl.
  - exists acc. split; [done|]. by rewrite Qplus_0_r.
  - rewrite py_div_nat by done. simpl.
    rewrite Counter_get, Qgtb_nat_div by done.
    case_bool_decide as Hc.
    + destruct (IH (acc + Qnat (count w doc_words)
                          / Qnat (length doc_words))%Q) as (r & -> & Heq).
      exists r. split; [done|]. by rewrite Heq, Qplus_assoc.
    + destruct (IH acc) as (r & -> & Heq).
      exists r. split; [done|]. rewrite Heq.
      rewrite Hc.
      assert (Qnat 0 / Qnat (length doc_words) == 0)%Q as -> by done.
      by rewrite Qplus_0_l.
Qed.

(** The score the code computes: zero for a document without tokens,
    and otherwise the term-frequency sum times the share of the query
    tokens, repetitions included, found in the document.  An empty
    query raises unless the document has no token. *)
Lemma calculate_tf_idf_value query_words document :
  query_words ≠ [] →
  ∃ r, calculate_tf_idf self query_words document = Ok r
       ∧ (r == repeat_score self query_words document)%Q.
Proof.
  intros Hq. unfold calculate_tf_idf, repeat_score.
  case_decide as Hn; [by exists 0%Q|].
  destruct (tf_loop_sum (preprocess_text self document) query_words Hn)
    as (s & -> & Hs).
  simpl. rewrite py_div_nat by by destruct query_words.
  eexists. split; [done|].
  unfold present. rewrite Hs. unfold Qdiv. by rewrite Qmult_assoc.
Qed.

Lemma calculate_tf_idf_empty_query document :
  preprocess_text self document ≠ [] →
  calculate_tf_idf self [] document = Raise ZeroDivisionError.
Proof.
  intros Hn. unfold calculate_tf_idf.
  case_decide as Hlen; [by destruct (preprocess_text self document)|].
  done.
Qed.
End ScorerFacts.

(** *** Counting form of the score *)


Section Counting.
Implicit Types qw dw : list string.

Lemma Qnat_add a b : (Qnat (a + b) == Qnat a + Qnat b)%Q.
Proof. unfold Qnat. by rewrite Nat2Z.inj_add, inject_Z_plus. Qed.

Lemma Qnat_mul a b : (Qnat (a * b) == Qnat a * Qnat b)%Q.
Proof. unfold Qnat. by rewrite Nat2Z.inj_mul, inject_Z_mult. Qed.

Lemma Qnat_nonzero n : n ≠ 0 → ¬ (Qnat n == 0)%Q.
Proof. intros Hn. by destruct n. Qed.

Lemma term_frequency_sum_total qw dw :
  length dw ≠ 0 →
  (term_frequency_sum qw dw == Qnat (total_count qw dw) / Qnat (length dw))%Q.
Proof.
  intros Hn. unfold total_count.
  induction qw as [|w qw IH].
  - simpl. by destruct (length dw).
  - change (term_frequency_sum (w :: qw) dw)
      with (Qnat (count w dw) / Qnat (length dw)
            + term_frequency_sum qw dw)%Q.
    rewrite IH, fmap_cons.
    change (sum_list (count w dw :: ((λ w, count w dw) <$> qw)))
      with (count w dw + sum_list ((λ w, count w dw) <$> qw)).
    rewrite Qnat_add. field. by apply Qnat_nonzero.
Qed.

Lemma count_app w dw1 dw2 : count w (dw1 ++ dw2) = count w dw1 + count w dw2.
Proof. unfold count. by rewrite filter_app, length_app. Qed.

Lemma total_count_app qw dw1 dw2 :
  total_count qw (dw1 ++ dw2) = total_count qw dw1 + total_count qw dw2.
Proof.
  unfold total_count. induction qw as [|w qw IH]; [done|].
  rewrite !fmap_cons. simpl. rewrite IH, count_app. lia.
Qed.

Lemma count_cons t w dw :
  count t (w :: dw) = (if decide (w = t) then 1 else 0) + count t dw.
Proof.
  unfold count. case_decide.
  - by rewrite filter_cons_True.
  - by rewrite filter_cons_False.
Qed.

Lemma total_count_singleton qw t : total_count qw [t] = count t qw.
Proof.
  unfold total_count. induction qw as [|w qw IH]; [done|].
  rewrite fmap_cons. simpl. rewrite IH, !count_cons.
  change (count w []) with 0.
  repeat case_decide; first [lia | congruence].
Qed.

Lemma count_notin qw t : t ∉ qw → count t qw = 0.
Proof.
  induction qw as [|w qw IH]; [done|].
  intros [Hne Hnotin]%not_elem_of_cons.
  rewrite count_cons, IH by done. by case_decide.
Qed.

Lemma count_elem qw t : t ∈ qw → 1 ≤ count t qw.
Proof.
  induction 1 as [t qw|t w qw _ IH]; rewrite count_cons.
  - rewrite decide_True by done. lia.
  - lia.
Qed.


End Counting.

Lemma score_closed_form (qw dw : list string) (k : nat) :
  length dw ≠ 0 → qw ≠ [] →
  (term_frequency_sum qw dw * (Qnat k / Qnat (length qw))
   == Qnat (total_count qw dw * k) / Qnat (length dw * length qw))%Q.
Proof.
  intros Hn Hq. rewrite term_frequency_sum_total, !Qnat_mul by done.
  field. split; apply Qnat_nonzero; [by destruct qw | done].
Qed.





(** In binary64 the order of two scores is at the mercy of the last bit,
    also for a query of pairwise distinct tokens: for the tokens of "alpha
    beta gamma" the document "alpha alpha alpha beta gamma" scores
    3/5 + 1/5 + 1/5 = 1; with one more "alpha" the sum 4/6 + 1/6 + 1/6
    rounds below 1, and the score goes down. *)
Lemma score_rounding_replay :
  let query_words := preprocess_text empty_kb "alpha beta gamma" in
  NoDup query_words ∧ "alpha" ∈ query_words
  ∧ ∃ r r',
      calculate_tf_idf_binary64 empty_kb query_words
        "alpha alpha alpha beta gamma" = Ok r
      ∧ calculate_tf_idf_binary64 empty_kb query_words
          ("alpha alpha alpha beta gamma" +:+ " " +:+ "alpha") = Ok r'
      ∧ r = binary64_of_nat 1
      ∧ PrimFloat.ltb r' r = true.
Proof.
  split; [apply (bool_decide_unpack _); vm_compute; reflexivity|].
  split; [apply (bool_decide_unpack _); vm_compute; reflexivity|].
  eexists _, _. repeat split; vm_compute; reflexivity.
Qed.

Lemma Qnat_div_pos (a b : nat) :
  b ≠ 0 → (0 < Qnat a / Qnat b)%Q ↔ 0 < a.
Proof.
  intros Hb. destruct b as [|b]; [done|]. destruct a as [|a].
  - split; [|lia]. by intros H; vm_compute in H.
  - split; [lia|]. intros _. unfold Qlt, Qdiv, Qmult, Qinv, Qnat. simpl. lia.
Qed.

Lemma total_count_pos (qw dw : list string) :
  0 < total_count qw dw ↔ ∃ w, w ∈ qw ∧ w ∈ dw.
Proof.
  unfold total_count. induction qw as [|w qw IH].
  - split; [simpl; lia|]. by intros (w & ?%elem_of_nil & _).
  - rewrite fmap_cons.
    change (sum_list (count w dw :: ((λ w, count w dw) <$> qw)))
      with (count w dw + sum_list ((λ w, count w dw) <$> qw)).
    split.
    + intros Hpos. destruct (decide (w ∈ dw)) as [Hin|Hnotin].
      * exists w. split; [by left|done].
      * rewrite (count_notin dw w Hnotin) in Hpos.
        destruct IH as [IH _]. destruct IH as (w' & ? & ?); [lia|].
        exists w'. split; [by right|done].
    + intros (w' & [->|Hin]%elem_of_cons & Hdw).
      * pose proof (count_elem dw w Hdw). lia.
      * destruct IH as [_ IH]. assert (0 < sum_list ((λ w, count w dw) <$> qw))
          by (apply IH; eauto). lia.
Qed.

Lemma present_pos (qw dw : list string) :
  0 < length (present qw dw) ↔ ∃ w, w ∈ qw ∧ w ∈ dw.
Proof.
  unfold present. split.
  - destruct (filter _ qw) as [|w l] eqn:Hf; [simpl; lia|]. intros _.
    assert (w ∈ filter (λ w, w ∈ dw) qw) as Hw by (rewrite Hf; by left).
    apply list_elem_of_filter in Hw as [? ?]. eauto.
  - intros (w & Hq & Hd).
    assert (w ∈ filter (λ w, w ∈ dw) qw) as Hw
      by by apply list_elem_of_filter.
    destruct (filter _ qw); [inversion Hw|simpl; lia].
Qed.

Lemma calculate_tf_idf_sign (self : UniversityKnowledgeBase)
    (query_words : list string) (document : string) :
  query_words ≠ [] →
  ∃ r, calculate_tf_idf self query_words document = Ok r
       ∧ (0 <= r)%Q
       ∧ ((0 < r)%Q ↔
          ∃ w, w ∈ query_words ∧ w ∈ preprocess_text self document).
Proof.
  intros Hq.
  destruct (calculate_tf_idf_value self query_words document Hq)
    as (r & Hr & Heq).
  exists r. split; [done|]. rewrite Heq. unfold repeat_score.
  set (dw := preprocess_text self document).
  assert (length query_words ≠ 0) as Hm by by destruct query_words.
  case_decide as Hn.
  - split; [done|]. split; [by intros H; vm_compute in H|].
    intros (w & _ & Hw). destruct dw; [inversion Hw|done].
  - rewrite score_closed_form by done.
    assert (length dw * length query_words ≠ 0) as Hnm by lia.
    split.
    + destruct (decide (0 < total_count query_words dw
                            * length (present query_words dw))) as [Hp|Hz].
      * apply Qlt_le_weak. by apply Qnat_div_pos.
      * replace (total_count query_words dw
                 * length (present query_words dw)) with 0 by lia.
        destruct (length dw * length query_words); done.
    + rewrite Qnat_div_pos by done. split.
      * intros Hpos. apply present_pos. lia.
      * intros Hex. pose proof (proj2 (present_pos _ _) Hex).
        pose proof (proj2 (total_count_pos _ _) Hex). nia.
Qed.



(** ** Intent classification *)

Section IntentFacts.
Implicit Types d : list (string * nat).

Lemma Dict_get_app_None {V} (d : list (string * V)) k :
  k ∉ d.*1 → Dict.get d k = None.
Proof.
  induction d as [|[k' v'] d IH]; simpl; [done|].
  intros [Hne Hnotin]%not_elem_of_cons.
  rewrite decide_False by done. by apply IH.
Qed.

Lemma Dict_set_fresh {V} (d : list (string * V)) k v :
  k ∉ d.*1 → Dict.set d k v = d ++ [(k, v)].
Proof.
  induction d as [|[k' v'] d IH]; simpl; [done|].
  intros [Hne Hnotin]%not_elem_of_cons.
  rewrite decide_False by done. by rewrite IH.
Qed.


Lemma scored_keys query_lower patterns :
  (scored query_lower patterns).*1 ⊆ patterns.*1.
Proof.
  unfold scored. induction patterns as [|[c kws] ps IH]; [done|].
  rewrite fmap_cons, filter_cons. case_decide; simpl; set_solver.
Qed.

Lemma intent_scores_scored query_lower patterns acc :
  NoDup patterns.*1 → (∀ c, c ∈ acc.*1 → c ∉ patterns.*1) →
  foldl (λ intent_scores '(intent, keywords),
           let score := keyword_hits keywords query_lower in
           if decide (0 < score)
           then Dict.set intent_scores intent score
           else intent_scores)
        acc patterns
  = acc ++ scored query_lower patterns.
Proof.
  revert acc. induction patterns as [|[c kws] ps IH]; intros acc Hnd Hacc.
  - by rewrite app_nil_r.
  - apply NoDup_cons in Hnd as [Hc Hnd].
    unfold scored. rewrite fmap_cons, filter_cons. simpl.
    case_decide as Hpos.
    + rewrite IH; [|done|].
      * rewrite Dict_set_fresh, <- (assoc (++)); [done|].
        intros Hin. apply (Hacc _ Hin). set_solver.
      * intros c'. rewrite Dict_set_fresh, fmap_app.
        -- intros [Hin| ->%list_elem_of_singleton]%elem_of_app; [|done].
           specialize (Hacc _ Hin). set_solver.
        -- intros Hin. apply (Hacc _ Hin). set_solver.
    + rewrite IH; [done|done|]. intros c' Hin.
      specialize (Hacc _ Hin). set_solver.
Qed.

(** [max] keeps the first of the largest values. *)
Lemma max_by_value_first d f1 best f2 :
  Forall (λ x, x.2 < best.2) f1 → Forall (λ x, x.2 ≤ best.2) f2 →
  ∃ g1 kv g2,
    f1 ++ best :: f2 ++ d = g1 ++ kv :: g2
    ∧ max_by_value best d = kv.1
    ∧ Forall (λ x, x.2 < kv.2) g1 ∧ Forall (λ x, x.2 ≤ kv.2) g2.
Proof.
  revert f1 best f2. induction d as [|x d IH]; intros f1 best f2 H1 H2.
  - exists f1, best, f2. by rewrite app_nil_r.
  - simpl. case_decide as Hlt.
    + destruct (IH (f1 ++ best :: f2) x []) as (g1 & kv & g2 & Heq & ?).
      * apply Forall_app. split; [|apply Forall_cons; split; [done|]].
        -- eapply Forall_impl; [done|]. simpl. lia.
        -- eapply Forall_impl; [done|]. simpl. lia.
      * done.
      * exists g1, kv, g2. split; [|done].
        rewrite <- Heq. by rewrite <- (assoc (++)).
    + destruct (IH f1 best (f2 ++ [x])) as (g1 & kv & g2 & Heq & ?).
      * done.
      * apply Forall_app. split; [done|]. apply Forall_singleton. lia.
      * exists g1, kv, g2. split; [|done].
        rewrite <- Heq. by rewrite <- (assoc (++)).
Qed.

(** A cut of a filtered list comes from a cut of the list. *)
Lemma filter_split {A} (P : A → Prop) `{∀ x, Decision (P x)}
    (l f1 f2 : list A) x :
  filter P l = f1 ++ x :: f2 →
  ∃ l1 l2, l = l1 ++ x :: l2 ∧ P x ∧ filter P l1 = f1 ∧ filter P l2 = f2.
Proof.
  revert f1. induction l as [|y l IH]; intros f1.
  - rewrite filter_nil. by destruct f1.
  - rewrite filter_cons. case_decide as Hy.
    + destruct f1 as [|z f1]; simpl.
      * intros [= -> Hl]. exists [], l. by rewrite filter_nil.
      * intros [= -> Hl].
        destruct (IH _ Hl) as (l1 & l2 & -> & ? & <- & <-).
        exists (z :: l1), l2. by rewrite filter_cons_True.
    + intros Hl. destruct (IH _ Hl) as (l1 & l2 & -> & ? & <- & <-).
      exists (y :: l1), l2. by rewrite filter_cons_False.
Qed.

(** A bound on the values that hit bounds the others, which are zero. *)
Lemma Forall_positive (R : nat → nat → Prop) d n :
  (∀ v, ¬ 0 < v → R v n) →
  Forall (λ x, R x.2 n) (filter (λ kv, 0 < kv.2) d) →
  Forall (λ x, R x.2 n) d.
Proof.
  intros Hzero. induction d as [|x d IH]; [done|].
  rewrite filter_cons. case_decide as Hx.
  - intros [? ?]%Forall_cons. apply Forall_cons. auto.
  - intros ?. apply Forall_cons. auto.
Qed.
End IntentFacts.

Lemma detect_intent_general (k : UniversityKnowledgeBase) (h : list entry)
    (patterns : list (string * list string)) (qp : list (string * string))
    (query : string) :
  let self := mkChatbot k h patterns qp in
  let hits (keywords : list string) :=
    keyword_hits keywords (Text.lower query) in
  NoDup patterns.*1 →
  (Forall (λ p, hits p.2 = 0) patterns ∧ detect_intent self query = "general")
  ∨ ∃ before intent keywords after,
      patterns = before ++ (intent, keywords) :: after
      ∧ detect_intent self query = intent
      ∧ 0 < hits keywords
      ∧ Forall (λ p, hits p.2 < hits keywords) before
      ∧ Forall (λ p, hits p.2 ≤ hits keywords) after.
Proof.
  intros self hits Hnd. unfold detect_intent. simpl.
  rewrite (intent_scores_scored _ _ [] Hnd) by (intros c Hc; inversion Hc).
  simpl. destruct (scored (Text.lower query) patterns) as [|kv0 S] eqn:HS.
  - left. split; [|done]. unfold scored in HS.
    apply Forall_forall. intros [c kws] Hin.
    destruct (decide (0 < hits kws)) as [Hpos|]; [|simpl; lia].
    assert ((c, hits kws) ∈ filter (λ kv : string * nat, 0 < kv.2)
              ((λ '(intent, keywords),
                  (intent, keyword_hits keywords (Text.lower query)))
                 <$> patterns)) as Hmem.
    { apply list_elem_of_filter. split; [done|].
      apply list_elem_of_fmap. by exists (c, kws). }
    rewrite HS in Hmem. inversion Hmem.
  - right. simpl.
    destruct (max_by_value_first S [] kv0 [])
      as (g1 & kv & g2 & Heq & -> & Hg1 & Hg2); [done..|].
    simpl in Heq. rewrite <- HS in Heq. unfold scored in Heq.
    apply filter_split in Heq as (m1 & m2 & Hm & Hpos & <- & <-).
    apply fmap_app_inv in Hm as (p1 & p2' & -> & Hm2 & ->).
    symmetry in Hm2.
    apply fmap_cons_inv in Hm2 as ([c kws] & p2 & -> & -> & ->).
    exists p1, c, kws, p2. simpl in *.
    split; [done|]. split; [done|]. split; [done|]. split.
    + apply (Forall_positive lt) in Hg1; [|lia].
      apply Forall_fmap in Hg1. eapply Forall_impl; [done|].
      by intros [c' kws'].
    + apply (Forall_positive le) in Hg2; [|lia].
      apply Forall_fmap in Hg2. eapply Forall_impl; [done|].
      by intros [c' kws'].
Qed.

(** C7: the intent is the category whose keyword list has the most
    keywords occurring in the lower-cased query; of several with the most,
    the first in the order faculty_info, admissions, departments,
    notifications, academics, research, contact, general; and general when
    no keyword of any category occurs. *)
Theorem detect_intent_first_max (k : UniversityKnowledgeBase)
    (h : list entry) (qp : list (string * string)) (query : string) :
  let self := mkChatbot k h the_intent_patterns qp in
  let hits (keywords : list string) :=
    length (filter (λ keyword, Text.contains keyword (Text.lower query) = true)
                   keywords) in
  the_intent_patterns.*1
  = ["faculty_info"; "admissions"; "departments"; "notifications";
     "academics"; "research"; "contact"; "general"]
  ∧ ((Forall (λ p, hits p.2 = 0) the_intent_patterns
      ∧ detect_intent self query = "general")
     ∨ ∃ before intent keywords after,
         the_intent_patterns = before ++ (intent, keywords) :: after
         ∧ detect_intent self query = intent
         ∧ 0 < hits keywords
         ∧ Forall (λ p, hits p.2 < hits keywords) before
         ∧ Forall (λ p, hits p.2 ≤ hits keywords) after).
Proof.
  intros self hits. split; [done|].
  apply detect_intent_general.
  apply (bool_decide_unpack _). by vm_compute.
Qed.

(** ** Lookup by name *)


Section LookupFacts.

Lemma starts_with_spec p s :
  Text.starts_with p s = true ↔ ∃ post, s = p +:+ post.
Proof.
  revert s. induction p as [|a p IH]; intros s; simpl.
  - split; [by exists s|done].
  - destruct s as [|b s].
    + split; [done|]. by intros [post ?].
    + case_decide as Hab.
      * subst b. rewrite IH. split.
        -- intros [post ->]. by exists post.
        -- intros [post [= ->]]. by exists post.
      * split; [done|]. intros [post [= ? _]]. congruence.
Qed.

Lemma contains_spec sub s : Text.contains sub s = true ↔ substring sub s.
Proof.
  unfold substring. induction s as [|c s IH]; simpl.
  - rewrite orb_false_r, starts_with_spec. split.
    + intros [post ->]. by exists "", post.
    + intros ([|a pre] & post & Heq); [by exists post|done].
  - rewrite orb_true_iff, starts_with_spec, IH. split.
    + intros [[post ->]|(pre & post & ->)].
      * by exists "", post.
      * by exists (String c pre), post.
    + intros ([|a pre] & post & Heq).
      * left. by exists post.
      * right. injection Heq as -> ->. by exists pre, post.
Qed.

Lemma partial_match_spec name_lower key :
  partial_match name_lower key = true ↔ partially_matches name_lower key.
Proof.
  unfold partial_match, partially_matches.
  rewrite orb_true_iff, contains_spec, existsb_exists.
  apply or_iff_compat_l. split.
  - intros (part & Hin%list_elem_of_In & Hc%contains_spec). eauto.
  - intros (part & Hin%list_elem_of_In & Hc%contains_spec). eauto.
Qed.

Lemma Dict_get_Some {V} (d : list (string * V)) k v :
  Dict.get d k = Some v →
  ∃ before after, d = before ++ (k, v) :: after ∧ k ∉ before.*1.
Proof.
  induction d as [|[k' v'] d IH]; simpl; [done|].
  case_decide as Hk.
  - intros [= ->]. subst k'. exists [], d. split; [done|]. by intros ?%elem_of_nil.
  - intros (before & after & -> & Hnotin)%IH.
    exists ((k', v') :: before), after. split; [done|].
    simpl. by apply not_elem_of_cons.
Qed.

Lemma Dict_get_None {V} (d : list (string * V)) k :
  Dict.get d k = None → k ∉ d.*1.
Proof.
  induction d as [|[k' v'] d IH]; simpl; [by intros _ ?%elem_of_nil|].
  case_decide as Hk; [done|]. intros ?%IH.
  simpl. by apply not_elem_of_cons.
Qed.

(** [find] gives the first element that passes the test. *)
Lemma find_first {A} (f : A → bool) (l : list A) :
  match List.find f l with
  | Some x => ∃ before after,
      l = before ++ x :: after ∧ f x = true
      ∧ Forall (λ y, f y = false) before
  | None => Forall (λ y, f y = false) l
  end.
Proof.
  induction l as [|y l IH]; simpl; [done|].
  destruct (f y) eqn:Hy.
  - by exists [], l.
  - destruct (List.find f l) as [x|].
    + destruct IH as (before & after & -> & ? & ?).
      exists (y :: before), after. split; [done|]. split; [done|].
      by apply Forall_cons.
    + by apply Forall_cons.
Qed.

Lemma Dict_set_keys {V} (d : list (string * V)) k v :
  (Dict.set d k v).*1 = if decide (k ∈ d.*1) then d.*1 else d.*1 ++ [k].
Proof.
  induction d as [|[k' v'] d IH]; [done|].
  cbn [Dict.set]. destruct (decide (k' = k)) as [->|Hk].
  - rewrite !fmap_cons. cbn [fst]. by rewrite decide_True by set_solver.
  - rewrite !fmap_cons, IH. cbn [fst]. destruct (decide (k ∈ d.*1)).
    + by rewrite decide_True by set_solver.
    + rewrite decide_False; [done|]. set_solver.
Qed.

Lemma Dict_set_elem {V} (d : list (string * V)) k v k' v' :
  (k', v') ∈ Dict.set d k v → (k', v') = (k, v) ∨ (k', v') ∈ d.
Proof.
  induction d as [|[k0 v0] d IH]; simpl.
  - intros ->%list_elem_of_singleton. by left.
  - destruct (decide (k0 = k)) as [->|Hk].
    + intros [->|?]%elem_of_cons; [by left|right; by right].
    + intros [->|[?|?]%IH]%elem_of_cons;
        [right; by left|by left|right; by right].
Qed.

(** The index built from the rows: its keys are distinct, and every entry
    is a row under its lower-cased, non-empty name. *)
Lemma index_rows_spec (rows : list row) :
  NoDup (index_rows rows).*1
  ∧ Forall (λ '(k, r), r ∈ rows ∧ k = Text.lower (get_default r "name" "")
                       ∧ k ≠ "")
           (index_rows rows).
Proof.
  unfold index_rows.
  enough (∀ idx seen,
    NoDup idx.*1 →
    Forall (λ '(k, r), r ∈ seen ∧ k = Text.lower (get_default r "name" "")
                       ∧ k ≠ "") idx →
    let idx' :=
      foldl (λ idx r,
               let name := Text.lower (get_default r "name" "") in
               if decide (name = "") then idx else Dict.set idx name r)
            idx rows in
    NoDup idx'.*1
    ∧ Forall (λ '(k, r), r ∈ seen ++ rows
                         ∧ k = Text.lower (get_default r "name" "")
                         ∧ k ≠ "") idx') as Hgen.
  { apply (Hgen [] []); constructor. }
  induction rows as [|r rows IH]; intros idx seen Hnd Hall; simpl.
  - split; [done|]. by rewrite app_nil_r.
  - replace (seen ++ r :: rows) with ((seen ++ [r]) ++ rows)
      by by rewrite <- (assoc (++)).
    case_decide as Hname.
    + apply IH; [done|]. eapply Forall_impl; [done|].
      intros [k r'] (? & ? & ?). set_solver.
    + apply IH.
      * rewrite Dict_set_keys. case_decide; [done|].
        apply NoDup_app. split; [done|]. split; [set_solver|].
        apply NoDup_singleton.
      * apply Forall_forall. intros [k r'] [[= -> ->]|Hin]%Dict_set_elem.
        -- split; [set_solver|done].
        -- rewrite Forall_forall in Hall. destruct (Hall _ Hin) as (? & ? & ?).
           split; [set_solver|done].
Qed.
End LookupFacts.

(** C10: a name whose lower-cased form is a key of the index gets the
    record under that key; any other name gets the record of the first
    key, in the order of the index, in which the whole lower-cased name or
    one of its whitespace-separated tokens occurs; the result is [None]
    only when there is no such key. *)
Theorem find_faculty_by_name_spec (self : UniversityKnowledgeBase)
    (name : string) :
  let name_lower := Text.lower name in
  let index := faculty_index self in
  (∃ before record after,
     index = before ++ (name_lower, record) :: after
     ∧ (name_lower ∉ before.*1)
     ∧ find_faculty_by_name self name = Some record)
  ∨ ((name_lower ∉ index.*1)
     ∧ ∃ before key record after,
         index = before ++ (key, record) :: after
         ∧ partially_matches name_lower key
         ∧ Forall (λ p, ¬ partially_matches name_lower p.1) before
         ∧ find_faculty_by_name self name = Some record)
  ∨ ((name_lower ∉ index.*1)
     ∧ Forall (λ p, ¬ partially_matches name_lower p.1) index
     ∧ find_faculty_by_name self name = None).
Proof.
  intros name_lower index. unfold find_faculty_by_name.
  fold name_lower index.
  destruct (Dict.get index name_lower) as [record|] eqn:Hget.
  - left. apply Dict_get_Some in Hget as (before & after & ? & ?).
    by exists before, record, after.
  - right. apply Dict_get_None in Hget.
    pose proof (find_first
      (λ '(faculty_name, _), partial_match name_lower faculty_name) index)
      as Hfind.
    destruct (List.find _ index) as [[key record]|].
    + left. split; [done|].
      destruct Hfind as (before & after & -> & Hm%partial_match_spec & Hb).
      exists before, key, record, after.
      split; [done|]. split; [done|]. split; [|done].
      eapply Forall_impl; [done|]. intros [k' r'] Hf Hm'.
      apply partial_match_spec in Hm'. simpl in *. congruence.
    + right. split; [done|]. split; [|done].
      eapply Forall_impl; [done|]. intros [k' r'] Hf Hm'.
      apply partial_match_spec in Hm'. simpl in *. congruence.
Qed.

(** ** Construction *)

Lemma string_app_nil_r (s : string) : s +:+ "" = s.
Proof.
  induction s as [|c s IH]; [done|].
  change (String c s +:+ "") with (String c (s +:+ "")). by rewrite IH.
Qed.

Lemma string_app_assoc (a b c : string) : (a +:+ b) +:+ c = a +:+ b +:+ c.
Proof.
  induction a as [|x a IH]; [done|].
  change (String x (a +:+ b) +:+ c = String x (a +:+ b +:+ c)).
  change (String x ((a +:+ b) +:+ c) = String x (a +:+ b +:+ c)).
  by rewrite IH.
Qed.

Lemma substring_app_r (pre s sub : string) :
  substring sub s → substring sub (pre +:+ s).
Proof.
  intros (a & b & ->). exists (pre +:+ a), b. by rewrite string_app_assoc.
Qed.

(** C8: construction raises the store-absent error, whose message tells to
    run the scraper first, exactly when the database file does not exist;
    no knowledge base and no chatbot is built then, and both are built
    when the file exists. *)
Theorem store_absent_iff (fs : filesystem) (data_dir : string) :
  let built := UniversityKnowledgeBase_init fs data_dir in
  ((∃ msg, built = Raise (FileNotFoundError msg))
   ↔ fs !! db_path data_dir = None)
  ∧ match fs !! db_path data_dir with
    | None =>
        ∃ msg,
          built = Raise (FileNotFoundError msg)
          ∧ substring "Please run data_scraper.py first." msg
          ∧ UniversityAIChatbot_init fs data_dir
            = Raise (FileNotFoundError msg)
    | Some db =>
        ∃ kb,
          built = Ok kb
          ∧ pages kb = tbl_pages db
          ∧ UniversityAIChatbot_init fs data_dir
            = Ok (mkChatbot kb [] the_intent_patterns the_question_patterns)
    end.
Proof.
  intros built. subst built.
  unfold UniversityAIChatbot_init, UniversityKnowledgeBase_init,
    load_knowledge_base.
  destruct (fs !! db_path data_dir) as [db|]; simpl.
  - split; [|by eexists].
    split; [by intros [msg ?]|done].
  - split; [split; [done|by eexists]|].
    eexists. split; [done|]. split; [|done].
    do 2 apply substring_app_r. by exists ". ", "".
Qed.

(** ** The chat turn *)

(** The response is computed from the knowledge base, the intent table and
    the query; the conversation log is not among its inputs. *)
Lemma generate_response_history (k : UniversityKnowledgeBase)
    (ip : list (string * list string)) (qp qp' : list (string * string))
    (h h' : list entry) (query : string) :
  generate_response (mkChatbot k h ip qp) query
  = generate_response (mkChatbot k h' ip qp') query.
Proof. reflexivity. Qed.

(** Two chat turns with the same query on the same knowledge base give
    the same outcome (the same response text) whatever the conversation
    logs hold, and a turn only appends to the log: the user entry and,
    once the response is produced, the bot entry with that response, each
    with its timestamp. *)
Theorem chat_ignores_history (k : UniversityKnowledgeBase)
    (ip : list (string * list string)) (qp : list (string * string))
    (h1 h2 : list entry) (now1 now2 now1' now2' query : string) :
  let self1 := mkChatbot k h1 ip qp in
  let self2 := mkChatbot k h2 ip qp in
  (chat self1 now1 now2 query).1 = (chat self2 now1' now2' query).1
  ∧ conversation_history (chat self1 now1 now2 query).2
    = h1 ++ UserEntry now1 query ::
        match (chat self1 now1 now2 query).1 with
        | Ok response => [BotEntry now2 response]
        | Raise _ => []
        end
  ∧ kb (chat self1 now1 now2 query).2 = k
  ∧ intent_patterns (chat self1 now1 now2 query).2 = ip.
Proof.
  intros self1 self2. unfold chat, log. simpl.
  rewrite (generate_response_history k ip qp qp
             (h2 ++ [UserEntry now1' query]) (h1 ++ [UserEntry now1 query])).
  destruct (generate_response _ query) as [response|e]; simpl.
  - by rewrite <- (assoc (++)).
  - done.
Qed.

(** ** Queries without tokens *)

Section EmptyQuery.
Variable self : UniversityKnowledgeBase.

Lemma search_pages_ok query_words ps :
  query_words ≠ [] → ∃ rs, search_pages self query_words ps = Ok rs.
Proof.
  intros Hq. induction ps as [|p ps [rs IH]]; simpl; [by eexists|].
  destruct (calculate_tf_idf_value self query_words (page_content p) Hq)
    as (r & -> & _).
  simpl. rewrite IH. simpl. by eexists.
Qed.

Lemma search_pages_tokenless ps :
  Forall (λ p, preprocess_text self (page_content p) = []) ps →
  search_pages self [] ps = Ok [].
Proof.
  induction 1 as [|p ps Hp _ IH]; simpl; [done|].
  unfold calculate_tf_idf at 1. rewrite Hp. simpl. by rewrite IH.
Qed.

(** The search raises exactly when the query has no token and some
    stored page has one. *)
Lemma search_pages_raises ps :
  Exists (λ p, preprocess_text self (page_content p) ≠ []) ps →
  search_pages self [] ps = Raise ZeroDivisionError.
Proof.
  induction 1 as [p ps Hp|p ps _ IH]; simpl.
  - by rewrite calculate_tf_idf_empty_query.
  - destruct (decide (preprocess_text self (page_content p) = []))
      as [Hp|Hp].
    + unfold calculate_tf_idf at 1. rewrite Hp. simpl. by rewrite IH.
    + by rewrite calculate_tf_idf_empty_query.
Qed.

Lemma semantic_search_raises query limit :
  preprocess_text self query = [] →
  Exists (λ p, preprocess_text self (page_content p) ≠ []) (pages self) →
  semantic_search self query limit = Raise ZeroDivisionError.
Proof.
  intros Hq Hp. unfold semantic_search.
  by rewrite Hq, search_pages_raises.
Qed.

Lemma semantic_search_ok query limit :
  preprocess_text self query ≠ [] →
  ∃ rs, semantic_search self query limit = Ok rs.
Proof.
  intros Hq. unfold semantic_search.
  destruct (search_pages_ok _ (pages self) Hq) as [rs ->]. by eexists.
Qed.
End EmptyQuery.

(** A query with a token that survives preprocessing is answered. *)
Lemma generate_response_ok (self : UniversityAIChatbot) (query : string) :
  preprocess_text (kb self) query ≠ [] →
  ∃ response, generate_response self query = Ok response.
Proof.
  intros Hq.
  pose proof (λ limit, semantic_search_ok (kb self) query limit Hq) as Hs.
  unfold generate_response, handle_faculty_query, handle_admissions_query,
    handle_department_query, handle_notifications_query, handle_general_query.
  destruct (Hs 2) as [rs2 ->], (Hs 3) as [rs3 ->], (Hs 5) as [rs5 ->].
  simpl. repeat case_match; by eexists.
Qed.

(** C1: on a store with one page of text, the chatbot is built, and the
    turn for the query "hi", none of whose tokens survives preprocessing,
    raises [ZeroDivisionError] instead of returning a guidance text; the
    log keeps the user entry alone. *)
Theorem chat_raises_on_tokenless_query :
  ∃ bot,
    UniversityAIChatbot_init sample_fs "university_data" = Ok bot
    ∧ preprocess_text (kb bot) "hi" = []
    ∧ (chat bot "2026-01-01T10:00:00" "2026-01-01T10:00:01" "hi").1
      = Raise ZeroDivisionError
    ∧ conversation_history
        (chat bot "2026-01-01T10:00:00" "2026-01-01T10:00:01" "hi").2
      = [UserEntry "2026-01-01T10:00:00" "hi"].
Proof. eexists. split; [done|]. by vm_compute. Qed.

(** C9, on the store with one page of text: whatever the log holds, the
    turn for the query "hi" appends the user entry and raises
    [ZeroDivisionError]; the log ends with the user entry, and no bot entry
    follows it. *)
Theorem chat_raise_appends_user_entry_only (h : list entry)
    (now1 now2 : string) :
  ∃ bot,
    UniversityAIChatbot_init sample_fs "university_data" = Ok bot
    ∧ chat (mkChatbot (kb bot) h (intent_patterns bot) (question_patterns bot))
           now1 now2 "hi"
      = (Raise ZeroDivisionError,
         mkChatbot (kb bot) (h ++ [UserEntry now1 "hi"])
                   (intent_patterns bot) (question_patterns bot)).
Proof.
  exists (mkChatbot (mkKB (tbl_pages sample_db) [] [] [] the_stopwords [] [])
                    [] the_intent_patterns the_question_patterns).
  split; [vm_compute; reflexivity|].
  unfold chat, log.
  cbn [kb conversation_history intent_patterns question_patterns].
  rewrite (generate_response_history _ the_intent_patterns
             the_question_patterns the_question_patterns
             (h ++ [UserEntry now1 "hi"]) []).
  assert (generate_response
            (mkChatbot
               (mkKB (tbl_pages sample_db) [] [] [] the_stopwords [] [])
               [] the_intent_patterns the_question_patterns) "hi"
          = Raise ZeroDivisionError) as -> by (vm_compute; reflexivity).
  reflexivity.
Qed.

(** ** The crawler *)

Module ScraperFacts.
Import Scraper.


Lemma enqueue_spec links queue g :
  let st' := enqueue links queue g in
  requested st'.2 = requested g ∧ pdf_links st'.2 = pdf_links g
  ∧ files st'.2 = files g
  ∧ visited_urls g ⊆ visited_urls st'.2
  ∧ ∃ new, st'.1 = queue ++ new ∧ NoDup new
           ∧ (∀ u, u ∈ new → u ∉ visited_urls g)
           ∧ (∀ u, u ∈ new → u ∈ visited_urls st'.2).
Proof.
  unfold enqueue. revert queue g.
  induction links as [|link links IH]; intros queue g; simpl.
  - repeat split; [done|]. exists []. rewrite app_nil_r.
    repeat split; [constructor|set_solver..].
  - case_decide as Hin; [apply IH|].
    destruct (IH (queue ++ [link])
                 (Globals (visited_urls g ∪ {[link]}) (pdf_links g)
                          (files g) (requested g)))
      as (-> & -> & -> & Hsub & new & -> & Hnd & Hfresh & Hvis).
    simpl in *. repeat split; [set_solver|].
    exists (link :: new). rewrite <- (assoc (++)). split; [done|].
    split; [|split].
    + apply NoDup_cons. split; [|done]. intros Hl%Hfresh. set_solver.
    + intros u [->|Hu%Hfresh]%elem_of_cons; set_solver.
    + intros u [->|Hu]%elem_of_cons; [set_solver|by apply Hvis].
Qed.

Lemma crawl_start_admitted start_url files0 :
  admitted_once (crawl_start start_url (initial files0)).
Proof.
  unfold admitted_once, admitted. simpl. split.
  - apply NoDup_singleton.
  - intros u ->%list_elem_of_singleton. set_solver.
Qed.

Section Crawl.
Variable http_get : string → option soup.
Variable urljoin : string → string → string.
Variable urlparse : string → parsed.

Abbreviation get_all_links := (get_all_links http_get urljoin urlparse).
Abbreviation crawl_step := (crawl_step http_get urljoin urlparse).
Abbreviation crawl_loop := (crawl_loop http_get urljoin urlparse).


Lemma get_all_links_failure url g :
  http_get url = None →
  get_all_links url g
  = (([], None),
     Globals (visited_urls g) (pdf_links g) (files g) (requested g ++ [url])).
Proof. intros Hget. unfold Scraper.get_all_links. by rewrite Hget. Qed.

Lemma get_all_links_globals url g :
  let g' := (get_all_links url g).2 in
  requested g' = requested g ++ [url]
  ∧ visited_urls g ⊆ visited_urls g'
  ∧ visited_urls g' ⊆ visited_urls g ∪ {[url]}
  ∧ pdf_links g' = pdf_links g ∧ files g' = files g.
Proof.
  unfold Scraper.get_all_links.
  destruct (http_get url); simpl; repeat split; set_solver.
Qed.

Lemma save_content_globals url text g :
  let g' := save_content urlparse url text g in
  requested g' = requested g ∧ visited_urls g' = visited_urls g
  ∧ pdf_links g' = pdf_links g.
Proof. unfold save_content. by destruct (files g !! _). Qed.

Lemma find_pdfs_globals page url g :
  let g' := find_pdfs urljoin page url g in
  requested g' = requested g ∧ visited_urls g' = visited_urls g
  ∧ files g' = files g.
Proof.
  unfold find_pdfs. revert g.
  induction (anchors page) as [|href hrefs IH]; intros g; [done|].
  simpl. destruct (_ && _); [|apply IH].
  destruct (IH (Globals (visited_urls g)
                  (pdf_links g ++ [urljoin url href]) (files g)
                  (requested g))) as (-> & -> & ->).
  done.
Qed.


(** A turn of the loop appends to the admissions, and keeps them distinct
    and visited. *)
Lemma crawl_step_admitted st st' :
  crawl_step st = Some st' → admitted_once st →
  admitted_once st' ∧ ∃ new, admitted st' = admitted st ++ new.
Proof.
  destruct st as [[|current_url queue] g]; [done|].
  unfold admitted_once, admitted, Scraper.crawl_step. simpl.
  pose proof (get_all_links_globals current_url g) as Hg.
  destruct (get_all_links current_url g) as [[links page] g1].
  simpl in Hg. destruct Hg as (Hreq & Hsub & _ & _ & _).
  intros Hstep [Hnd Hvis].
  destruct page as [page|].
  - set (g2 := if decide (Text.strip (collapse_ws
                      (join_space (paragraphs page))) = "")
               then g1 else save_content urlparse current_url _ g1) in *.
    assert (requested g2 = requested g1 ∧ visited_urls g2 = visited_urls g1)
      as [Hr2 Hv2].
    { subst g2. case_decide; [done|].
      by destruct (save_content_globals current_url
                     (Text.strip (collapse_ws (join_space (paragraphs page))))
                     g1) as (? & ? & _). }
    destruct (find_pdfs_globals page current_url g2) as (Hr3 & Hv3 & _).
    set (g3 := find_pdfs urljoin page current_url g2) in *.
    destruct (enqueue_spec links queue g3)
      as (Hr4 & _ & _ & Hsub4 & new & Hq & Hndnew & Hfresh & Hnewvis).
    injection Hstep as <-.
    rewrite Hr4, Hq, Hr3, Hr2, Hreq, Hv3, Hv2 in *. clear Hr4 Hq Hr3 Hr2 Hreq.
    split; [|exists new; by rewrite <- !(assoc (++))].
    rewrite <- (assoc (++)) in *. simpl in *.
    split.
    + rewrite (assoc (++) _ (current_url :: queue) new).
      apply NoDup_app. split; [done|]. split; [|done].
      intros u Hu Hnew. apply (Hfresh u Hnew).
      apply Hsub, Hvis, Hu.
    + intros u Hu.
      assert (u ∈ requested g ++ current_url :: queue ∨ u ∈ new)
        as [Hold|Hnew] by set_solver.
      * by apply Hsub4, Hsub, Hvis.
      * by apply Hnewvis.
  - injection Hstep as <-. simpl. rewrite Hreq, <- !(assoc (++)). simpl.
    split.
    + split; [done|]. intros u Hu. apply Hsub, Hvis. set_solver.
    + exists []. by rewrite app_nil_r, <- (assoc (++)).
Qed.


(** The loop ends exactly when the queue is empty. *)
Lemma crawl_step_None st : crawl_step st = None ↔ st.1 = [].
Proof.
  destruct st as [[|u queue] g]; [done|].
  unfold Scraper.crawl_step.
  destruct (get_all_links u g) as [[links [page|]] g1]; done.
Qed.

Lemma crawl_loop_admitted n st :
  admitted_once st →
  match crawl_loop n st with
  | inl g => NoDup (requested g)
  | inr st' => admitted_once st'
  end.
Proof.
  revert st. induction n as [|n IH]; intros st Hst; simpl.
  - destruct st as [[|u queue] g]; [|done].
    destruct Hst as [Hnd _]. unfold admitted in Hnd. simpl in Hnd.
    by rewrite app_nil_r in Hnd.
  - destruct (crawl_step st) as [st'|] eqn:Hstep.
    + apply IH. by eapply crawl_step_admitted.
    + destruct st as [[|u queue] g]; [|].
      * destruct Hst as [Hnd _]. unfold admitted in Hnd. simpl in Hnd.
        by rewrite app_nil_r in Hnd.
      * unfold Scraper.crawl_step in Hstep.
        destruct (get_all_links u g) as [[links [page|]] g1]; done.
Qed.
End Crawl.
End ScraperFacts.

(** C4: in a crawl from the freshly loaded module, the URLs admitted to
    the queue (those requested so far, then those waiting) are pairwise
    distinct at every turn, so no URL is enqueued or requested twice,
    whatever the pages link to. *)
Theorem frontier_admits_once (http_get : string → option Scraper.soup)
    (urljoin : string → string → string)
    (urlparse : string → Scraper.parsed)
    (n : nat) (start_url : string) (files0 : gmap string string) :
  match Scraper.crawl http_get urljoin urlparse n start_url
          (Scraper.initial files0) with
  | inl g => NoDup (Scraper.requested g)
  | inr (queue, g) =>
      NoDup (Scraper.requested g ++ queue)
      ∧ ∀ u, u ∈ Scraper.requested g ++ queue → u ∈ Scraper.visited_urls g
  end.
Proof.
  unfold Scraper.crawl.
  pose proof (ScraperFacts.crawl_loop_admitted http_get urljoin urlparse n _
                (ScraperFacts.crawl_start_admitted start_url files0)) as H.
  destruct (Scraper.crawl_loop _ _ _ n _) as [g|[queue g]]; done.
Qed.

(** C5: when the request for the URL at the head of the queue fails, the
    fetch returns no link and no page, the turn ends with the rest of the
    queue, the URL is still marked visited, and neither the visited set
    nor the saved files nor the PDF list change. *)
Theorem fetch_failure_skips_page (http_get : string → option Scraper.soup)
    (urljoin : string → string → string)
    (urlparse : string → Scraper.parsed)
    (n : nat) (start_url : string) (files0 : gmap string string)
    (current_url : string) (queue : list string) (g : Scraper.globals) :
  Scraper.crawl http_get urljoin urlparse n start_url (Scraper.initial files0)
  = inr (current_url :: queue, g) →
  http_get current_url = None →
  ∃ g',
    Scraper.get_all_links http_get urljoin urlparse current_url g
    = (([], None), g')
    ∧ Scraper.crawl_step http_get urljoin urlparse (current_url :: queue, g)
      = Some (queue, g')
    ∧ Scraper.requested g' = Scraper.requested g ++ [current_url]
    ∧ Scraper.visited_urls g' = Scraper.visited_urls g
    ∧ current_url ∈ Scraper.visited_urls g'
    ∧ Scraper.files g' = Scraper.files g
    ∧ Scraper.pdf_links g' = Scraper.pdf_links g.
Proof.
  intros Hreach Hfail.
  pose proof (ScraperFacts.crawl_loop_admitted http_get urljoin urlparse n _
                (ScraperFacts.crawl_start_admitted start_url files0)) as H.
  unfold Scraper.crawl in Hreach. rewrite Hreach in H.
  destruct H as [_ Hvis]. unfold Scraper.admitted in Hvis.
  simpl in Hvis.
  eexists. split; [by apply ScraperFacts.get_all_links_failure|].
  unfold Scraper.crawl_step.
  rewrite ScraperFacts.get_all_links_failure by done. simpl.
  repeat split. apply Hvis. set_solver.
Qed.

Lemma fetch_failure_skips_page_witness :
  let g :=
    Scraper.Globals
      {[ Scraper.base_url; "https://uom.edu.pk/news";
         "https://uom.edu.pk/staff" ]}
      []
      {[ "university_data/index.txt"
         := "Welcome to the University of Malakand." ]}
      [Scraper.base_url] in
  Scraper.crawl Scraper.broken_get Scraper.absolute_urljoin
    Scraper.plain_urlparse 1 Scraper.base_url (Scraper.initial ∅)
  = inr ("https://uom.edu.pk/staff" :: ["https://uom.edu.pk/news"], g)
  ∧ Scraper.broken_get "https://uom.edu.pk/staff" = None
  ∧ ∃ g',
      Scraper.crawl_step Scraper.broken_get Scraper.absolute_urljoin
        Scraper.plain_urlparse
        ("https://uom.edu.pk/staff" :: ["https://uom.edu.pk/news"], g)
      = Some (["https://uom.edu.pk/news"], g')
      ∧ "https://uom.edu.pk/staff" ∈ Scraper.visited_urls g'
      ∧ Scraper.files g' = Scraper.files g.
Proof.
  intros g.
  assert (Scraper.crawl Scraper.broken_get Scraper.absolute_urljoin
            Scraper.plain_urlparse 1 Scraper.base_url (Scraper.initial ∅)
          = inr ("https://uom.edu.pk/staff" :: ["https://uom.edu.pk/news"], g))
    as Hreach by (vm_compute; reflexivity).
  assert (Scraper.broken_get "https://uom.edu.pk/staff" = None)
    as Hfail by (vm_compute; reflexivity).
  split; [exact Hreach|]. split; [exact Hfail|].
  destruct (fetch_failure_skips_page _ _ _ _ _ _ _ _ _ Hreach Hfail)
    as (g' & _ & Hstep & _ & _ & Hvis & Hfiles & _).
  exists g'. split; [exact Hstep|]. split; [exact Hvis|exact Hfiles].
Defined.

(** *** A site without end *)

Module ChainFacts.
Import Scraper.

Lemma string_length_app (a b : string) :
  String.length (a +:+ b) = String.length a + String.length b.
Proof.
  induction a as [|c a IH]; [done|].
  change (String c a +:+ b) with (String c (a +:+ b)). simpl. by rewrite IH.
Qed.

Lemma chain_url_length k : String.length (chain_url k) = 18 + 2 * k.
Proof.
  induction k as [|k IH]; [done|].
  simpl. rewrite string_length_app, IH. simpl. lia.
Qed.

Local Arguments chain_url : simpl never.

Lemma contains_char_app c a b :
  Text.contains (String c "") (a +:+ b)
  = Text.contains (String c "") a || Text.contains (String c "") b.
Proof.
  induction a as [|x a IH].
  - simpl. by destruct b.
  - change (String x a +:+ b) with (String x (a +:+ b)). simpl.
    rewrite IH. case_decide; [done|]. simpl. by destruct a, b.
Qed.

Lemma chain_url_no_fragment k : Text.contains "#" (chain_url k) = false.
Proof.
  induction k as [|k IH]; [done|].
  change (chain_url (S k)) with (chain_url k +:+ "/a").
  by rewrite contains_char_app, IH.
Qed.


Lemma chain_url_tail k : chain_url k = base_url +:+ chain_tail k.
Proof.
  induction k as [|k IH]; [done|].
  change (chain_url (S k)) with (chain_url k +:+ "/a").
  simpl. by rewrite IH, string_app_assoc.
Qed.

Lemma chain_tail_slash k :
  chain_tail k = "" ∨ ∃ t, chain_tail k = String "/" t.
Proof.
  induction k as [|k [IH|[t IH]]]; [by left|right..]; simpl; rewrite IH.
  - by exists "a".
  - by exists (t +:+ "/a").
Qed.

Lemma chain_url_valid k : is_valid plain_urlparse (chain_url k) = true.
Proof.
  rewrite chain_url_tail.
  by destruct (chain_tail_slash k) as [->|[t ->]].
Qed.

(** A turn on the chain: the one page waiting is requested and the next
    one takes its place. *)
Lemma chain_step k g :
  (∀ u, u ∈ visited_urls g → String.length u ≤ String.length (chain_url k)) →
  ∃ g',
    crawl_step chain_get absolute_urljoin plain_urlparse ([chain_url k], g)
    = Some ([chain_url (S k)], g')
    ∧ requested g' = requested g ++ [chain_url k]
    ∧ ∀ u, u ∈ visited_urls g' →
           String.length u ≤ String.length (chain_url (S k)).
Proof.
  intros Hlen.
  assert (chain_url (S k) ∉ visited_urls g) as Hfresh.
  { intros Hin%Hlen. rewrite !chain_url_length in Hin. lia. }
  assert (chain_url (S k) ≠ chain_url k) as Hne.
  { intros Heq%(f_equal String.length). rewrite !chain_url_length in Heq. lia. }
  unfold crawl_step, get_all_links, chain_get, absolute_urljoin. simpl.
  change (chain_url k +:+ "/a") with (chain_url (S k)).
  unfold strip_fragment. rewrite chain_url_no_fragment, chain_url_valid.
  rewrite bool_decide_true by done. simpl.
  rewrite (left_id_L ∅ (∪)), elements_singleton.
  change (chain_url k +:+ "/a") with (chain_url (S k)).
  set (g1 := Globals (visited_urls g ∪ {[chain_url k]}) (pdf_links g)
                     (files g) (requested g ++ [chain_url k])).
  destruct (ScraperFacts.find_pdfs_globals (λ _ href, href)
              (Soup [chain_url (S k)] []) (chain_url k) g1)
    as (Hr & Hv & _).
  set (g2 := find_pdfs _ _ _ g1) in *.
  unfold enqueue. cbn [foldl].
  rewrite decide_False by (rewrite Hv; subst g1; cbn; set_solver).
  eexists. split; [done|]. cbn [requested visited_urls].
  split; [by rewrite Hr|].
  intros u. rewrite Hv. subst g1. cbn [visited_urls].
  rewrite !elem_of_union, !elem_of_singleton.
  intros [[Hu%Hlen| ->]| ->]; rewrite ?chain_url_length in *; lia.
Qed.

Lemma chain_loop n k g :
  (∀ u, u ∈ visited_urls g → String.length u ≤ String.length (chain_url k)) →
  ∃ g',
    crawl_loop chain_get absolute_urljoin plain_urlparse n ([chain_url k], g)
    = inr ([chain_url (n + k)], g')
    ∧ length (requested g') = length (requested g) + n.
Proof.
  revert k g. induction n as [|n IH]; intros k g Hlen.
  - exists g. split; [done|lia].
  - destruct (chain_step k g Hlen) as (g1 & Hstep & Hreq & Hlen1).
    destruct (IH (S k) g1 Hlen1) as (g' & Hloop & Hreq').
    exists g'. split.
    + change (crawl_loop chain_get absolute_urljoin plain_urlparse (S n)
                ([chain_url k], g))
        with (match crawl_step chain_get absolute_urljoin plain_urlparse
                      ([chain_url k], g) with
              | None => inl g
              | Some st' =>
                  crawl_loop chain_get absolute_urljoin plain_urlparse n st'
              end).
      rewrite Hstep, Hloop. by rewrite Nat.add_succ_r.
    + rewrite Hreq', Hreq, length_app. simpl. lia.
Qed.
End ChainFacts.

(** C2: the loop of [crawl] has no page ceiling.  On the site where every
    page links to a new page, after any number of turns that many pages
    have been requested and the queue is not empty; so the crawl goes
    past the configured [MAX_PAGES] and never ends. *)
Theorem crawl_has_no_page_ceiling :
  (∀ n, ∃ queue g,
     Scraper.crawl Scraper.chain_get Scraper.absolute_urljoin
       Scraper.plain_urlparse n Scraper.base_url (Scraper.initial ∅)
     = inr (queue, g)
     ∧ queue ≠ [] ∧ length (Scraper.requested g) = n)
  ∧ ∃ queue g,
      Scraper.crawl Scraper.chain_get Scraper.absolute_urljoin
        Scraper.plain_urlparse (S Scraper.MAX_PAGES) Scraper.base_url
        (Scraper.initial ∅)
      = inr (queue, g)
      ∧ Scraper.MAX_PAGES < length (Scraper.requested g).
Proof.
  assert (∀ n, ∃ queue g,
     Scraper.crawl Scraper.chain_get Scraper.absolute_urljoin
       Scraper.plain_urlparse n Scraper.base_url (Scraper.initial ∅)
     = inr (queue, g)
     ∧ queue ≠ [] ∧ length (Scraper.requested g) = n) as Hall.
  { intros n. unfold Scraper.crawl, Scraper.crawl_start.
    destruct (ChainFacts.chain_loop n 0
                (Scraper.Globals (∅ ∪ {[Scraper.base_url]}) [] ∅ []))
      as (g' & Hloop & Hreq).
    - intros u. simpl. rewrite (left_id_L ∅ (∪)), elem_of_singleton.
      by intros ->.
    - exists [Scraper.chain_url (n + 0)], g'. by split. }
  split; [done|].
  destruct (Hall (S Scraper.MAX_PAGES)) as (queue & g & Hrun & _ & Hreq).
  exists queue, g. split; [done|]. rewrite Hreq. lia.
Qed.

(** * Further properties of the query engine *)

(** ** Preprocessing *)

Lemma text_map_map (f g : ascii → ascii) (s : string) :
  Text.map f (Text.map g s) = Text.map (λ c, f (g c)) s.
Proof. induction s as [|c s IH]; simpl; [done | by rewrite IH]. Qed.

Lemma text_map_ext (f g : ascii → ascii) (s : string) :
  (∀ c, f c = g c) → Text.map f s = Text.map g s.
Proof.
  intros Hfg. induction s as [|c s IH]; simpl; [done | by rewrite Hfg, IH].
Qed.

Lemma cleaned_char_class (c : ascii) :
  let d := Text.blank (Text.lower_char c) in
  (Text.is_word d || Text.is_space d) = true ∧ Text.is_upper d = false.
Proof. by destruct c as [[] [] [] [] [] [] [] []]. Qed.

Lemma lower_twice (c : ascii) :
  Text.blank (Text.lower_char (Text.lower_char c))
  = Text.blank (Text.lower_char c).
Proof. by destruct c as [[] [] [] [] [] [] [] []]. Qed.

Lemma blank_twice (c : ascii) :
  Text.blank (Text.lower_char (Text.blank c))
  = Text.blank (Text.lower_char c).
Proof. by destruct c as [[] [] [] [] [] [] [] []]. Qed.

(** X1: every token that preprocessing returns has more than two
    characters, is not a stop-word, and is made of lower-case letters,
    digits and underscores only. *)
Theorem preprocess_text_tokens (self : UniversityKnowledgeBase)
    (text t : string) :
  t ∈ preprocess_text self text →
  2 < Text.len t
  ∧ (t ∉ stopwords self)
  ∧ Forall (λ c, Text.is_word c = true ∧ Text.is_upper c = false)
           (Text.chars t).
Proof.
  unfold preprocess_text. intros [Hkeep Ht]%list_elem_of_filter.
  unfold keep_word in Hkeep.
  apply andb_true_iff in Hkeep as [[_ Hstop]%andb_true_iff Hlen].
  apply bool_decide_eq_true in Hstop, Hlen.
  split; [done|]. split; [done|].
  apply (TextFacts.split_tokens
           (λ d, (Text.is_word d || Text.is_space d) = true
                 ∧ Text.is_upper d = false)) in Ht.
  - destruct Ht as [_ Ht]. eapply Forall_impl; [done|].
    intros c [[Hw Hu] Hs]. rewrite Hs, orb_false_r in Hw. done.
  - unfold Text.sub_non_word, Text.lower.
    rewrite !TextFacts.chars_map, <- list_fmap_compose.
    apply Forall_fmap, Forall_true. intros c. apply cleaned_char_class.
Qed.

Lemma preprocess_text_tokens_witness :
  "malakand" ∈ preprocess_text empty_kb "University, OF Malakand!!"
  ∧ 2 < Text.len "malakand"
  ∧ ("malakand" ∉ stopwords empty_kb).
Proof.
  assert ("malakand" ∈ preprocess_text empty_kb "University, OF Malakand!!")
    as Hin by (apply (bool_decide_unpack _); by vm_compute).
  split; [exact Hin|].
  destruct (preprocess_text_tokens empty_kb _ _ Hin) as (Hlen & Hstop & _).
  split; [exact Hlen | exact Hstop].
Defined.

(** X2: preprocessing does not see letter case or punctuation: a text,
    its lower-cased form and its form with every non-word character
    replaced by a space give the same tokens. *)
Theorem preprocess_text_case_punctuation (self : UniversityKnowledgeBase)
    (text : string) :
  preprocess_text self (Text.lower text) = preprocess_text self text
  ∧ preprocess_text self (Text.sub_non_word text) = preprocess_text self text.
Proof.
  unfold preprocess_text, Text.sub_non_word, Text.lower.
  split; f_equal; f_equal; rewrite !text_map_map; apply text_map_ext.
  - apply lower_twice.
  - apply blank_twice.
Qed.

(** X3: the tokens of two texts joined by a space are the tokens of the
    first followed by the tokens of the second. *)
Theorem preprocess_text_concat (self : UniversityKnowledgeBase)
    (text1 text2 : string) :
  preprocess_text self (text1 +:+ " " +:+ text2)
  = preprocess_text self text1 ++ preprocess_text self text2.
Proof.
  unfold preprocess_text.
  rewrite TextFacts.lower_app, TextFacts.sub_non_word_app.
  change (Text.sub_non_word (Text.lower (" " +:+ text2)))
    with (String " " (Text.sub_non_word (Text.lower text2))).
  by rewrite TextFacts.split_sep, filter_app.
Qed.

Lemma preprocess_join_tokens (self : UniversityKnowledgeBase)
    (tokens : list string) :
  Forall (λ t, preprocess_text self t = [t]) tokens →
  preprocess_text self (Scraper.join_space tokens) = tokens.
Proof.
  induction 1 as [|t tokens Ht _ IH]; [done|].
  destruct tokens as [|t' tokens]; [done|].
  change (Scraper.join_space (t :: t' :: tokens))
    with (t +:+ " " +:+ Scraper.join_space (t' :: tokens)).
  by rewrite preprocess_text_append, Ht, IH.
Qed.

(** X4: preprocessing is idempotent: the tokens of a text, joined by
    spaces and preprocessed again, are the same tokens. *)
Theorem preprocess_text_idempotent (self : UniversityKnowledgeBase)
    (text : string) :
  preprocess_text self (Scraper.join_space (preprocess_text self text))
  = preprocess_text self text.
Proof.
  apply preprocess_join_tokens, Forall_forall.
  intros t Ht. by eapply preprocess_text_token.
Qed.

(** ** Scoring *)

(** X5: for a non-empty query the score is positive exactly when some
    query token occurs among the tokens of the document, and is zero
    otherwise; so a search keeps a page exactly when it shares a token
    with the query. *)
Theorem calculate_tf_idf_positive (self : UniversityKnowledgeBase)
    (query_words : list string) (document : string) :
  query_words ≠ [] →
  ∃ r, calculate_tf_idf self query_words document = Ok r
       ∧ (0 <= r)%Q
       ∧ ((0 < r)%Q ↔
          ∃ w, w ∈ query_words ∧ w ∈ preprocess_text self document).
Proof. apply calculate_tf_idf_sign. Qed.

Lemma calculate_tf_idf_positive_witness :
  ["computer"; "science"] ≠ []
  ∧ ∃ r, calculate_tf_idf empty_kb ["computer"; "science"]
           "Department of Computer Science" = Ok r
         ∧ (0 < r)%Q.
Proof.
  split; [done|].
  destruct (calculate_tf_idf_positive empty_kb ["computer"; "science"]
              "Department of Computer Science")
    as (r & Hr & _ & Hpos); [done|].
  exists r. split; [exact Hr|]. apply Hpos.
  exists "computer". split; apply (bool_decide_unpack _); by vm_compute.
Defined.

(** X6: the scorer raises only [ZeroDivisionError], and exactly when the
    query has no token while the document has one. *)
Theorem calculate_tf_idf_raises_iff (self : UniversityKnowledgeBase)
    (query_words : list string) (document : string) (e : exn) :
  calculate_tf_idf self query_words document = Raise e
  ↔ e = ZeroDivisionError ∧ query_words = []
    ∧ preprocess_text self document ≠ [].
Proof.
  split.
  - intros Hraise. destruct query_words as [|w qw].
    + destruct (decide (preprocess_text self document = [])) as [Hd|Hd].
      * unfold calculate_tf_idf in Hraise. by rewrite Hd in Hraise.
      * rewrite calculate_tf_idf_empty_query in Hraise by done.
        by injection Hraise as <-.
    + destruct (calculate_tf_idf_value self (w :: qw) document)
        as (r & Hr & _); [done|]. congruence.
  - intros (-> & -> & Hd). by apply calculate_tf_idf_empty_query.
Qed.

(** ** Ranking *)

Section SortFacts.
Context {A : Type} (gt : A → A → bool).

Lemma insert_desc_Permutation (x : A) (l : list A) :
  insert_desc gt x l ≡ₚ x :: l.
Proof.
  induction l as [|y l IH]; simpl; [done|].
  destruct (gt y x); [|done]. by rewrite IH, Permutation_swap.
Qed.

Lemma sort_desc_Permutation (l : list A) : sort_desc gt l ≡ₚ l.
Proof.
  unfold sort_desc. induction l as [|x l IH]; simpl; [done|].
  by rewrite insert_desc_Permutation, IH.
Qed.

(** No element of the sorted list is strictly above the one before it. *)
Lemma insert_desc_Sorted (x : A) (l : list A) :
  (∀ a b, gt a b = true → gt b a = false) →
  Sorted (λ a b, gt b a = false) l →
  Sorted (λ a b, gt b a = false) (insert_desc gt x l).
Proof.
  intros Hasym. induction 1 as [|y l Hl IH Hhd]; simpl.
  - by repeat constructor.
  - destruct (gt y x) eqn:Hyx.
    + constructor; [done|].
      destruct Hhd as [|z l' Hz]; simpl.
      * constructor. by apply Hasym.
      * destruct (gt z x); constructor; [done|by apply Hasym].
    + constructor; [by constructor|]. by constructor.
Qed.

Lemma sort_desc_Sorted (l : list A) :
  (∀ a b, gt a b = true → gt b a = false) →
  Sorted (λ a b, gt b a = false) (sort_desc gt l).
Proof.
  intros Hasym. unfold sort_desc.
  induction l as [|x l IH]; simpl; [constructor|].
  by apply insert_desc_Sorted.
Qed.

(** Elements none of which is above another keep their order. *)
Lemma insert_desc_stable (P : A → Prop) `{∀ x, Decision (P x)}
    (x : A) (l : list A) :
  (∀ a b, P a → P b → gt b a = false) →
  filter P (insert_desc gt x l) = filter P (x :: l).
Proof.
  intros Htie. induction l as [|y l IH]; simpl; [done|].
  destruct (gt y x) eqn:Hyx; [|done].
  rewrite filter_cons, IH, !(filter_cons _ x), (filter_cons _ y).
  destruct (decide (P y)) as [Hy|Hy]; [|done].
  destruct (decide (P x)) as [Hx|Hx]; [|done].
  rewrite (Htie x y Hx Hy) in Hyx. done.
Qed.

Lemma sort_desc_stable (P : A → Prop) `{∀ x, Decision (P x)} (l : list A) :
  (∀ a b, P a → P b → gt b a = false) →
  filter P (sort_desc gt l) = filter P l.
Proof.
  intros Htie. unfold sort_desc. induction l as [|x l IH]; simpl; [done|].
  rewrite insert_desc_stable by done. by rewrite !filter_cons, IH.
Qed.
End SortFacts.

Lemma Sorted_weaken {A} (R R' : A → A → Prop) (l : list A) :
  (∀ a b, R a b → R' a b) → Sorted R l → Sorted R' l.
Proof.
  intros HR. induction 1 as [|x l _ IH Hhd]; constructor; [done|].
  destruct Hhd; constructor. by apply HR.
Qed.

Lemma Qgtb_lt (a b : Q) : Qgtb a b = true ↔ (b < a)%Q.
Proof.
  unfold Qgtb. rewrite negb_true_iff, <- not_true_iff_false, Qle_bool_iff.
  split; [apply Qnot_le_lt | apply Qlt_not_le].
Qed.

Lemma Qgtb_le (a b : Q) : Qgtb a b = false ↔ (a <= b)%Q.
Proof. unfold Qgtb. by rewrite negb_false_iff, Qle_bool_iff. Qed.

(** X8: for a query with tokens, the loop of the search keeps, in the
    order of the store, exactly the pages that share a token with the
    query, each with its fields, its score and its snippet. *)
Theorem search_pages_hits (self : UniversityKnowledgeBase)
    (query_words : list string) (ps : list page) :
  query_words ≠ [] →
  ∃ hits,
    search_pages self query_words ps = Ok hits
    ∧ Forall2
        (λ p r,
           content r = page_content p ∧ title r = page_title p
           ∧ url r = page_url p ∧ category r = page_content_type p
           ∧ calculate_tf_idf self query_words (page_content p)
             = Ok (relevance_score r)
           ∧ (0 < relevance_score r)%Q
           ∧ snippet r = create_snippet self (page_content p) query_words 200)
        (filter (λ p, Exists (λ w, w ∈ preprocess_text self (page_content p))
                             query_words) ps)
        hits.
Proof.
  intros Hq. induction ps as [|p ps (hits & IH & Hall)].
  - exists []. split; [done|]. constructor.
  - destruct (calculate_tf_idf_sign self query_words (page_content p) Hq)
      as (r & Hr & _ & Hpos).
    cbn [search_pages]. rewrite Hr, IH. cbn [rbind].
    rewrite filter_cons.
    destruct (Qgtb r 0) eqn:Hgt.
    + apply Qgtb_lt in Hgt.
      rewrite decide_True by (apply Exists_exists, Hpos, Hgt).
      eexists. split; [done|]. by constructor.
    + rewrite decide_False.
      * by exists hits.
      * intros Hex%Exists_exists%Hpos. apply Qgtb_le in Hgt.
        by apply Qlt_not_le in Hex.
Qed.

Lemma search_pages_hits_witness :
  ["malakand"] ≠ []
  ∧ ∃ hits, search_pages (mkKB (tbl_pages sample_db) [] [] [] the_stopwords
                               [] [])
              ["malakand"] (tbl_pages sample_db) = Ok hits
            ∧ length hits = 1.
Proof.
  split; [done|].
  destruct (search_pages_hits
              (mkKB (tbl_pages sample_db) [] [] [] the_stopwords [] [])
              ["malakand"] (tbl_pages sample_db)) as (hits & Hs & Hall);
    [done|].
  exists hits. split; [exact Hs|].
  apply Forall2_length in Hall. rewrite <- Hall. by vm_compute.
Defined.

(** X9: a search that does not raise returns the first [limit] of the kept
    pages ranked by score: the ranking is a rearrangement of the kept
    pages, no result has a higher score than the one before it, and pages
    with equal scores stay in the order of the store.  A search that
    raises passes the exception on. *)
Theorem semantic_search_ranked (self : UniversityKnowledgeBase)
    (query : string) (limit : nat) :
  match search_pages self (preprocess_text self query) (pages self) with
  | Ok hits =>
      ∃ ranked,
        semantic_search self query limit = Ok (take limit ranked)
        ∧ ranked ≡ₚ hits
        ∧ Sorted (λ a b, (relevance_score b <= relevance_score a)%Q) ranked
        ∧ ∀ q, filter (λ r, Qeq_bool (relevance_score r) q = true) ranked
               = filter (λ r, Qeq_bool (relevance_score r) q = true) hits
  | Raise e => semantic_search self query limit = Raise e
  end.
Proof.
  unfold semantic_search.
  destruct (search_pages _ _ _) as [hits|e]; [|done]. simpl.
  eexists. split; [done|]. split; [apply sort_desc_Permutation|]. split.
  - eapply Sorted_weaken; [|apply sort_desc_Sorted].
    + intros a b Hab. by apply Qgtb_le in Hab.
    + intros a b Hab%Qgtb_lt. apply Qgtb_le. by apply Qlt_le_weak.
  - intros q. apply sort_desc_stable.
    intros a b Ha%Qeq_bool_iff Hb%Qeq_bool_iff.
    apply Qgtb_le. rewrite Ha, Hb. apply Qle_refl.
Qed.

Lemma string_ltb_leb (a b : string) :
  String.ltb a b = false ↔ String.leb b a = true.
Proof.
  unfold String.ltb, String.leb. rewrite (String.compare_antisym a b).
  by destruct (String.compare b a).
Qed.

Lemma string_ltb_asym (a b : string) :
  String.ltb a b = true → String.ltb b a = false.
Proof.
  unfold String.ltb. rewrite (String.compare_antisym a b).
  by destruct (String.compare b a).
Qed.

Lemma string_ltb_irrefl (a : string) : String.ltb a a = false.
Proof.
  unfold String.ltb.
  assert (String.compare a a = Eq) as ->; [|done].
  induction a as [|c a IH]; simpl; [done|].
  unfold Ascii.compare. by rewrite N.compare_refl.
Qed.

(** X10: when every stored notification has a date, and the date is a
    text, the recent notifications are the first [limit] of the stored
    notifications ranked by date, latest first: the ranking is a
    rearrangement of the stored ones, no date is later than the one before
    it, and notifications of the same date stay in the order of the
    store. *)
Theorem get_recent_notifications_ranked (self : UniversityKnowledgeBase)
    (limit : nat) :
  Forall (λ n, ∃ date : string, n !! "date" = Some date)
         (notifications self) →
  ∃ ranked,
    get_recent_notifications self limit = take limit ranked
    ∧ ranked ≡ₚ notifications self
    ∧ Forall (λ n, ∃ date : string, n !! "date" = Some date) ranked
    ∧ Sorted (λ a b, String.leb (get_default b "date" "")
                                (get_default a "date" "") = true) ranked
    ∧ ∀ d, filter (λ n, n !! "date" = Some d) ranked
           = filter (λ n, n !! "date" = Some d) (notifications self).
Proof.
  intros Hdates. unfold get_recent_notifications.
  eexists. split; [done|]. split; [apply sort_desc_Permutation|].
  split; [by rewrite sort_desc_Permutation|]. split.
  - eapply Sorted_weaken; [|apply sort_desc_Sorted].
    + intros a b Hab. by apply string_ltb_leb in Hab.
    + intros a b. apply string_ltb_asym.
  - intros d. apply sort_desc_stable.
    intros a b Ha Hb. unfold get_default. rewrite Ha, Hb.
    apply string_ltb_irrefl.
Qed.

Lemma get_recent_notifications_ranked_witness :
  Forall (λ n, ∃ date : string, n !! "date" = Some date)
         (notifications news_kb)
  ∧ ∃ ranked,
      get_recent_notifications news_kb 2 = take 2 ranked
      ∧ ranked ≡ₚ notifications news_kb
      ∧ Forall (λ n, ∃ date : string, n !! "date" = Some date) ranked
      ∧ Sorted (λ a b, String.leb (get_default b "date" "")
                                  (get_default a "date" "") = true) ranked
      ∧ ∀ d, filter (λ n, n !! "date" = Some d) ranked
             = filter (λ n, n !! "date" = Some d) (notifications news_kb).
Proof.
  assert (Forall (λ n, ∃ date : string, n !! "date" = Some date)
                 (notifications news_kb)) as Hdates
    by (repeat (constructor; [eexists; vm_compute; reflexivity|]);
        constructor).
  split; [exact Hdates|].
  exact (get_recent_notifications_ranked news_kb 2 Hdates).
Defined.

(** ** Snippets *)

Lemma text_take_length (n : nat) (s : string) : Text.len (Text.take n s) ≤ n.
Proof.
  unfold Text.len. revert s. induction n as [|n IH]; intros [|c s]; simpl;
    [lia..|]. specialize (IH s). lia.
Qed.

Lemma text_len_app (a b : string) :
  Text.len (a +:+ b) = Text.len a + Text.len b.
Proof. apply ChainFacts.string_length_app. Qed.

(** The loop of [create_snippet]: the sentence kept is the first of those
    with the largest score, if that score is above zero. *)
Lemma best_sentence_first (score : string → nat) (l done_ : list string)
    (best : string) (bs : nat) :
  Forall (λ s, score s ≤ bs) done_ →
  (bs = 0 ∧ best = "")
  ∨ (∃ l1 s l2, done_ = l1 ++ s :: l2 ∧ best = Text.strip s ∧ bs = score s
                ∧ 0 < bs ∧ Forall (λ s', score s' < bs) l1) →
  ∃ best' bs',
    foldl (λ '(best_sentence, best_score) sentence,
             if decide (best_score < score sentence)
             then (Text.strip sentence, score sentence)
             else (best_sentence, best_score))
          (best, bs) l = (best', bs')
    ∧ Forall (λ s, score s ≤ bs') (done_ ++ l)
    ∧ ((bs' = 0 ∧ best' = "")
       ∨ (∃ l1 s l2, done_ ++ l = l1 ++ s :: l2 ∧ best' = Text.strip s
                     ∧ bs' = score s ∧ 0 < bs'
                     ∧ Forall (λ s', score s' < bs') l1)).
Proof.
  revert done_ best bs. induction l as [|x l IH]; intros done_ best bs Hle Hinv.
  - exists best, bs. by rewrite app_nil_r.
  - cbn [foldl]. replace (done_ ++ x :: l) with ((done_ ++ [x]) ++ l)
      by by rewrite <- (assoc (++)).
    case_decide as Hlt.
    + apply IH.
      * apply Forall_app. split; [|by apply Forall_singleton].
        eapply Forall_impl; [done|]. simpl. lia.
      * right. exists done_, x, []. split; [done|]. split; [done|].
        split; [done|]. split; [lia|].
        eapply Forall_impl; [done|]. simpl. lia.
    + apply IH.
      * apply Forall_app. split; [done|]. apply Forall_singleton. lia.
      * destruct Hinv as [?|(l1 & s & l2 & -> & ? & ? & ? & ?)]; [by left|].
        right. exists l1, s, (l2 ++ [x]).
        by rewrite <- (assoc (++)).
Qed.

(** X11: a snippet is never empty and never longer than the snippet length
    plus the three characters of the ellipsis. *)
Theorem create_snippet_bounds (self : UniversityKnowledgeBase)
    (content : string) (query_words : list string) (snippet_length : nat) :
  create_snippet self content query_words snippet_length ≠ ""
  ∧ Text.len (create_snippet self content query_words snippet_length)
    ≤ snippet_length + 3.
Proof.
  unfold create_snippet.
  destruct (foldl _ _ _) as [best bs].
  assert (∀ s, s +:+ "..." ≠ "") as Hne.
  { intros s Heq%(f_equal Text.len). rewrite text_len_app in Heq.
    simpl in Heq. lia. }
  assert (∀ s, Text.len (Text.take snippet_length s +:+ "...")
               ≤ snippet_length + 3) as Hlen.
  { intros s. rewrite text_len_app.
    pose proof (text_take_length snippet_length s). simpl. lia. }
  destruct (decide (snippet_length < Text.len best)) as [Hlong|Hshort].
  - rewrite decide_False by apply Hne. split; [apply Hne | apply Hlen].
  - destruct (decide (best = "")).
    + split; [apply Hne | apply Hlen].
    + split; [done|lia].
Qed.

(** X12: the snippet is built from the first of the sentences (the parts
    of the content between full stops) that share the most tokens with the
    query, stripped and cut to the snippet length; when no sentence shares
    a token, it is the start of the content with an ellipsis. *)
Theorem create_snippet_best_sentence (self : UniversityKnowledgeBase)
    (content : string) (query_words : list string) (snippet_length : nat) :
  let sentences := Text.split_on "." content in
  let score := snippet_score self query_words in
  (Forall (λ s, score s = 0) sentences
   ∧ create_snippet self content query_words snippet_length
     = Text.take snippet_length content +:+ "...")
  ∨ ∃ before sentence after,
      sentences = before ++ sentence :: after
      ∧ 0 < score sentence
      ∧ Forall (λ s, score s < score sentence) before
      ∧ Forall (λ s, score s ≤ score sentence) after
      ∧ create_snippet self content query_words snippet_length
        = let best := Text.strip sentence in
          let best :=
            if decide (snippet_length < Text.len best)
            then Text.take snippet_length best +:+ "..." else best in
          if decide (best = "")
          then Text.take snippet_length content +:+ "..." else best.
Proof.
  intros sentences score. unfold create_snippet. fold sentences.
  destruct (best_sentence_first score sentences [] "" 0)
    as (best & bs & Hfold & Hle & Hinv); [constructor|by left|].
  unfold score in Hfold. rewrite Hfold. cbv beta iota. simpl in Hle, Hinv.
  destruct Hinv as [[-> ->]|(l1 & s & l2 & Heq & -> & -> & Hpos & Hl1)].
  - left. split.
    + eapply Forall_impl; [done|]. simpl. lia.
    + rewrite (decide_False (P := snippet_length < Text.len ""))
        by (unfold Text.len; simpl; lia).
      by rewrite decide_True.
  - right. exists l1, s, l2. split; [done|]. split; [done|]. split; [done|].
    split; [|done]. rewrite Heq in Hle.
    apply Forall_app in Hle as [_ Hle]. by apply Forall_cons in Hle as [_ ?].
Qed.

(** ** When a turn is answered *)

Lemma semantic_search_raises_tokens (self : UniversityKnowledgeBase)
    (query : string) (limit : nat) (e : exn) :
  semantic_search self query limit = Raise e →
  preprocess_text self query = []
  ∧ Exists (λ p, preprocess_text self (page_content p) ≠ []) (pages self).
Proof.
  intros Hraise.
  destruct (decide (preprocess_text self query = [])) as [Hq|Hq].
  - split; [done|].
    destruct (decide (Exists
                (λ p, preprocess_text self (page_content p) ≠ [])
                (pages self))) as [Hex|Hno]; [done|].
    unfold semantic_search in Hraise.
    rewrite Hq, search_pages_tokenless in Hraise; [done|].
    apply Forall_forall. intros p Hp.
    destruct (decide (preprocess_text self (page_content p) = []));
      [done|].
    destruct Hno. apply Exists_exists. eauto.
  - destruct (semantic_search_ok self query limit Hq) as [rs Hrs].
    congruence.
Qed.

(** X13: on a store whose page contents are texts, a search raises
    [ZeroDivisionError] when the query has no token after preprocessing
    and some stored page has one, and returns its results in every other
    case. *)
Theorem semantic_search_raises_iff (self : UniversityKnowledgeBase)
    (query : string) (limit : nat) :
  let tokenless :=
    preprocess_text self query = []
    ∧ Exists (λ p, preprocess_text self (page_content p) ≠ []) (pages self) in
  (tokenless → semantic_search self query limit = Raise ZeroDivisionError)
  ∧ (¬ tokenless → ∃ results, semantic_search self query limit = Ok results)
  ∧ (semantic_search self query limit = Raise ZeroDivisionError → tokenless).
Proof.
  intros tokenless. split; [|split].
  - intros [Hq Hex]. by apply semantic_search_raises.
  - intros Hno.
    destruct (semantic_search self query limit) as [rs|e] eqn:Hs;
      [by eexists|].
    by apply semantic_search_raises_tokens in Hs.
  - apply semantic_search_raises_tokens.
Qed.

Lemma generate_response_total (self : UniversityAIChatbot) (query : string) :
  (∀ limit, ∃ rs, semantic_search (kb self) query limit = Ok rs) →
  ∃ response, generate_response self query = Ok response.
Proof.
  intros Hs.
  unfold generate_response, handle_faculty_query, handle_admissions_query,
    handle_department_query, handle_notifications_query, handle_general_query.
  destruct (Hs 2) as [rs2 ->], (Hs 3) as [rs3 ->], (Hs 5) as [rs5 ->].
  simpl. repeat case_match; by eexists.
Qed.

(** X14: on a store whose values are all texts, a turn is answered, and
    logged with its user and bot entries, whenever the query keeps a token
    after preprocessing or no stored page has a token. *)
Theorem chat_answers (self : UniversityAIChatbot)
    (now1 now2 query : string) :
  preprocess_text (kb self) query ≠ []
  ∨ Forall (λ p, preprocess_text (kb self) (page_content p) = [])
           (pages (kb self)) →
  ∃ response,
    chat self now1 now2 query
    = (Ok response,
       mkChatbot (kb self)
         (conversation_history self
          ++ [UserEntry now1 query; BotEntry now2 response])
         (intent_patterns self) (question_patterns self)).
Proof.
  intros Hcond.
  destruct (generate_response_total (log self (UserEntry now1 query)) query)
    as [response Hresp].
  { intros limit. simpl. destruct Hcond as [Hq|Hp].
    - by apply semantic_search_ok.
    - destruct (semantic_search (kb self) query limit) as [rs|e] eqn:Hs;
        [by eexists|].
      apply semantic_search_raises_tokens in Hs as [_ Hex].
      apply Exists_exists in Hex as (p & Hin & Hne).
      rewrite Forall_forall in Hp. by destruct Hne, (Hp p Hin). }
  exists response. unfold chat. rewrite Hresp. unfold log. simpl.
  by rewrite <- (assoc (++)).
Qed.

Lemma chat_answers_witness :
  let bot :=
    mkChatbot (mkKB (tbl_pages sample_db) [] [] [] the_stopwords [] [])
              [] the_intent_patterns the_question_patterns in
  preprocess_text (kb bot) "When was Malakand established?" ≠ []
  ∧ ∃ response,
      (chat bot "2026-01-01T10:00:00" "2026-01-01T10:00:01"
         "When was Malakand established?").1 = Ok response.
Proof.
  intros bot.
  assert (preprocess_text (kb bot) "When was Malakand established?" ≠ [])
    as Hq by by vm_compute.
  split; [exact Hq|].
  destruct (chat_answers bot "2026-01-01T10:00:00" "2026-01-01T10:00:01"
              "When was Malakand established?" (or_introl Hq))
    as [response Hchat].
  exists response. rewrite Hchat. reflexivity.
Defined.

(** X15: on a store without pages, faculty, departments and
    notifications every turn is answered, with the text its handler keeps
    for finding nothing. *)
Theorem chat_empty_store (sw : gset string) (h : list entry)
    (ip : list (string * list string)) (qp : list (string * string))
    (now1 now2 query : string) :
  let self := mkChatbot (mkKB [] [] [] [] sw [] []) h ip qp in
  ∃ response,
    (chat self now1 now2 query).1 = Ok response
    ∧ response ∈ fallback_texts.
Proof.
  intros self. unfold chat.
  assert (∃ response,
            generate_response (log self (UserEntry now1 query)) query
            = Ok response ∧ response ∈ fallback_texts)
    as (response & -> & Hin); [|by exists response].
  unfold generate_response, fallback_texts. repeat case_decide.
  - unfold handle_faculty_query. simpl.
    destruct (extract_entities query !! "person"); simpl;
      eexists; (split; [reflexivity|]); by repeat constructor.
  - unfold handle_admissions_query. simpl.
    eexists; (split; [reflexivity|]); by repeat constructor.
  - unfold handle_department_query. simpl.
    destruct (extract_entities query !! "department"); simpl;
      eexists; (split; [reflexivity|]); by repeat constructor.
  - unfold handle_notifications_query. simpl.
    eexists; (split; [reflexivity|]); by repeat constructor.
  - unfold handle_general_query. simpl.
    eexists; (split; [reflexivity|]); by repeat constructor.
Qed.

(** X16: the intent is always one of the eight categories of the table,
    whatever the query. *)
Theorem detect_intent_range (k : UniversityKnowledgeBase) (h : list entry)
    (qp : list (string * string)) (query : string) :
  detect_intent (mkChatbot k h the_intent_patterns qp) query
  ∈ ["faculty_info"; "admissions"; "departments"; "notifications";
     "academics"; "research"; "contact"; "general"].
Proof.
  destruct (detect_intent_general k h the_intent_patterns qp query)
    as [[_ ->]|(before & intent & kws & after & Heq & -> & _)].
  - apply (bool_decide_unpack _). by vm_compute.
  - by repeat constructor.
  - change ["faculty_info"; "admissions"; "departments"; "notifications";
            "academics"; "research"; "contact"; "general"]
      with (the_intent_patterns.*1).
    rewrite Heq, fmap_app, fmap_cons. set_solver.
Qed.

(** ** The indexes *)

Lemma Dict_get_set {V} (d : list (string * V)) (k k' : string) (v : V) :
  Dict.get (Dict.set d k v) k'
  = if decide (k = k') then Some v else Dict.get d k'.
Proof.
  induction d as [|[k0 v0] d IH]; simpl.
  - by destruct (decide (k = k')).
  - destruct (decide (k0 = k)) as [->|Hk0]; simpl.
    + by destruct (decide (k = k')).
    + rewrite IH. destruct (decide (k0 = k')) as [->|?]; [|done].
      by rewrite decide_False.
Qed.

(** Rows under other names leave the entry of a name as it is. *)
Lemma index_loop_other (rows : list row) (idx : list (string * row))
    (key : string) :
  Forall (λ r, Text.lower (get_default r "name" "") ≠ key) rows →
  Dict.get
    (foldl (λ idx r,
              let name := Text.lower (get_default r "name" "") in
              if decide (name = "") then idx else Dict.set idx name r)
           idx rows) key
  = Dict.get idx key.
Proof.
  intros Hrows. revert idx.
  induction Hrows as [|r rows Hr _ IH]; intros idx; [done|].
  cbn [foldl]. rewrite IH. cbv zeta. case_decide; [done|].
  rewrite Dict_get_set. by rewrite decide_False.
Qed.

(** A row with a name is found under its lower-cased name unless a later
    row has the same lower-cased name. *)
Lemma index_rows_lookup (rows1 rows2 : list row) (r : row) :
  Text.lower (get_default r "name" "") ≠ "" →
  Forall (λ r', Text.lower (get_default r' "name" "")
                ≠ Text.lower (get_default r "name" "")) rows2 →
  Dict.get (index_rows (rows1 ++ r :: rows2))
           (Text.lower (get_default r "name" ""))
  = Some r.
Proof.
  intros Hname Hlater. unfold index_rows.
  rewrite foldl_app. cbn [foldl]. rewrite index_loop_other by done.
  cbv zeta. rewrite decide_False by done.
  rewrite Dict_get_set. by rewrite decide_True.
Qed.

(** X17: a faculty row with a name is found by that name written in any
    letter case, provided no row loaded after it has the same name up to
    letter case (the later row would take its place). *)
Theorem find_faculty_by_name_loaded (fs : filesystem) (data_dir : string)
    (db : database) (rows1 rows2 : list row) (r : row) (name : string) :
  fs !! db_path data_dir = Some db →
  tbl_faculty db = rows1 ++ r :: rows2 →
  Text.lower (get_default r "name" "") ≠ "" →
  Forall (λ r', Text.lower (get_default r' "name" "")
                ≠ Text.lower (get_default r "name" "")) rows2 →
  Text.lower name = Text.lower (get_default r "name" "") →
  ∃ kb,
    UniversityKnowledgeBase_init fs data_dir = Ok kb
    ∧ find_faculty_by_name kb name = Some r.
Proof.
  intros Hdb Hrows Hname Hlater Hquery.
  unfold UniversityKnowledgeBase_init, load_knowledge_base.
  rewrite Hdb. simpl. eexists. split; [done|].
  unfold find_faculty_by_name. simpl.
  by rewrite Hquery, Hrows, index_rows_lookup.
Qed.

Lemma find_faculty_by_name_loaded_witness :
  ∃ kb,
    UniversityKnowledgeBase_init staff_fs "university_data" = Ok kb
    ∧ find_faculty_by_name kb "DR. ALI KHAN"
      = Some {[ "name" := "Dr. Ali Khan"; "designation" := "Professor" ]}.
Proof.
  apply (find_faculty_by_name_loaded staff_fs "university_data" staff_db []
           [{[ "name" := "Dr. Sara Ahmad"; "department" := "Physics" ]}]).
  - by vm_compute.
  - reflexivity.
  - by vm_compute.
  - apply Forall_singleton. by vm_compute.
  - by vm_compute.
Defined.

(** X18: a department row with a name is found by that name written in
    any letter case, provided no row loaded after it has the same name up
    to letter case. *)
Theorem get_department_info_loaded (fs : filesystem) (data_dir : string)
    (db : database) (rows1 rows2 : list row) (r : row) (name : string) :
  fs !! db_path data_dir = Some db →
  tbl_departments db = rows1 ++ r :: rows2 →
  Text.lower (get_default r "name" "") ≠ "" →
  Forall (λ r', Text.lower (get_default r' "name" "")
                ≠ Text.lower (get_default r "name" "")) rows2 →
  Text.lower name = Text.lower (get_default r "name" "") →
  ∃ kb,
    UniversityKnowledgeBase_init fs data_dir = Ok kb
    ∧ get_department_info kb name = Some r.
Proof.
  intros Hdb Hrows Hname Hlater Hquery.
  unfold UniversityKnowledgeBase_init, load_knowledge_base.
  rewrite Hdb. simpl. eexists. split; [done|].
  unfold get_department_info. simpl.
  by rewrite Hquery, Hrows, index_rows_lookup.
Qed.

Lemma get_department_info_loaded_witness :
  ∃ kb,
    UniversityKnowledgeBase_init staff_fs "university_data" = Ok kb
    ∧ get_department_info kb "computer science"
      = Some {[ "name" := "Computer Science"; "head" := "Dr. Ali Khan" ]}.
Proof.
  apply (get_department_info_loaded staff_fs "university_data" staff_db []
           []).
  - by vm_compute.
  - reflexivity.
  - by vm_compute.
  - constructor.
  - by vm_compute.
Defined.

(** X19: in a chatbot that was built, the conversation log is empty, the
    stop-words are those of the constructor, and in both indexes the keys
    are pairwise distinct and each entry holds a loaded row under its
    lower-cased, non-empty name. *)
Theorem chatbot_init_indexes (fs : filesystem) (data_dir : string)
    (bot : UniversityAIChatbot) :
  UniversityAIChatbot_init fs data_dir = Ok bot →
  conversation_history bot = []
  ∧ stopwords (kb bot) = the_stopwords
  ∧ NoDup (faculty_index (kb bot)).*1
  ∧ Forall (λ '(k, r), r ∈ faculty (kb bot)
                       ∧ k = Text.lower (get_default r "name" "") ∧ k ≠ "")
           (faculty_index (kb bot))
  ∧ NoDup (department_index (kb bot)).*1
  ∧ Forall (λ '(k, r), r ∈ departments (kb bot)
                       ∧ k = Text.lower (get_default r "name" "") ∧ k ≠ "")
           (department_index (kb bot)).
Proof.
  unfold UniversityAIChatbot_init, UniversityKnowledgeBase_init,
    load_knowledge_base.
  destruct (fs !! db_path data_dir) as [db|]; [|done]. simpl.
  intros [= <-]. simpl.
  destruct (index_rows_spec (tbl_faculty db)) as [? ?].
  destruct (index_rows_spec (tbl_departments db)) as [? ?].
  done.
Qed.

Lemma chatbot_init_indexes_witness :
  ∃ bot,
    UniversityAIChatbot_init staff_fs "university_data" = Ok bot
    ∧ conversation_history bot = []
    ∧ NoDup (faculty_index (kb bot)).*1.
Proof.
  eexists. split; [reflexivity|].
  destruct (chatbot_init_indexes staff_fs "university_data" _ eq_refl)
    as (Hh & _ & Hnd & _).
  split; [exact Hh | exact Hnd].
Defined.

(** * Further properties of the crawler *)

Module CrawlFacts.
Import Scraper.

(** ** Fragments and file names *)

Lemma contains_char (c : ascii) (s : string) :
  Text.contains (String c "") s = true ↔ c ∈ Text.chars s.
Proof.
  induction s as [|x s IH]; simpl.
  - split; [done|]. by intros ?%elem_of_nil.
  - change (Text.chars (String x s)) with (x :: Text.chars s).
    rewrite elem_of_cons, <- IH. destruct (decide (c = x)) as [->|Hne].
    + split; [by left|]. intros _. by destruct s.
    + split.
      * intros H. right. by destruct (Text.contains (String c "") s), s.
      * intros [?|H]; [done|]. rewrite H. by destruct s.
Qed.

(** The first piece of a split stops before the first separator and is
    the start of the text. *)
Lemma split_on_head (sep : ascii) (cur : list ascii) (s : string) :
  ∃ pre post,
    head (Text.split_on_go sep cur s)
    = Some (String.string_of_list_ascii (rev cur ++ pre))
    ∧ (sep ∉ pre) ∧ Text.chars s = pre ++ post.
Proof.
  revert cur. induction s as [|c s IH]; intros cur; simpl.
  - exists [], []. rewrite app_nil_r. split; [done|].
    split; [by intros ?%elem_of_nil|done].
  - change (Text.chars (String c s)) with (c :: Text.chars s).
    destruct (decide (c = sep)) as [->|Hne].
    + exists [], (sep :: Text.chars s). rewrite app_nil_r. split; [done|].
      split; [by intros ?%elem_of_nil|done].
    + destruct (IH (c :: cur)) as (pre & post & -> & Hpre & ->).
      exists (c :: pre), post. simpl. rewrite <- (assoc (++)). simpl.
      split; [done|]. split; [|done].
      intros [?|?]%elem_of_cons; [congruence|done].
Qed.

Lemma of_list_app (a b : list ascii) :
  String.string_of_list_ascii (a ++ b)
  = String.string_of_list_ascii a +:+ String.string_of_list_ascii b.
Proof. induction a as [|c a IH]; simpl; [done | by rewrite IH]. Qed.

Lemma strip_fragment_prefix (full_url : string) :
  Text.contains "#" (strip_fragment full_url) = false
  ∧ ∃ rest, full_url = strip_fragment full_url +:+ rest.
Proof.
  unfold strip_fragment.
  destruct (Text.contains "#" full_url) eqn:Hc.
  - unfold Text.split_on.
    destruct (split_on_head "#" [] full_url) as (pre & post & -> & Hpre & Heq).
    simpl. split.
    + apply not_true_iff_false. rewrite contains_char.
      by rewrite TextFacts.chars_of_list.
    + exists (String.string_of_list_ascii post).
      by rewrite <- of_list_app, <- Heq, TextFacts.of_list_chars.
  - split; [done|]. exists "". by rewrite string_app_nil_r.
Qed.

(** X20: the URL kept for a link has no fragment: it contains no ['#']
    and is the start of the resolved URL. *)
Theorem strip_fragment_spec (full_url : string) :
  Text.contains "#" (strip_fragment full_url) = false
  ∧ ∃ rest, full_url = strip_fragment full_url +:+ rest.
Proof. apply strip_fragment_prefix. Qed.

Lemma replace_char_gone (x y : ascii) (s : string) :
  x ≠ y → x ∉ Text.chars (replace_char x y s).
Proof.
  intros Hxy. unfold replace_char. rewrite TextFacts.chars_map.
  intros (c & Hc & _)%list_elem_of_fmap.
  by destruct (decide (c = x)).
Qed.

(** X21: a page is saved under a file name that is not empty and has no
    ['/'], directly in the output directory, and only if no file of that
    name exists: an existing file is never overwritten. *)
Theorem save_content_spec (urlparse : string → parsed)
    (url content : string) (g : globals) :
  ∃ filename,
    filename ≠ "" ∧ Text.contains "/" filename = false
    ∧ save_content urlparse url content g
      = match files g !! (output_dir +:+ "/" +:+ filename +:+ ".txt") with
        | None =>
            Globals (visited_urls g) (pdf_links g)
                    (<[output_dir +:+ "/" +:+ filename +:+ ".txt" := content]>
                       (files g))
                    (requested g)
        | Some _ => g
        end
    ∧ files g ⊆ files (save_content urlparse url content g).
Proof.
  unfold save_content.
  set (slug := replace_char "/" "_" (strip_char "/" (path (urlparse url)))).
  assert (Text.contains "/" slug = false) as Hslug.
  { apply not_true_iff_false. rewrite contains_char.
    by apply replace_char_gone. }
  exists (if decide (slug = "") then "index" else slug).
  split; [by case_decide|]. split; [by case_decide|].
  split; [done|].
  destruct (files g !! _) eqn:Hfile; [done|]. simpl.
  by apply insert_subseteq.
Qed.

(** ** PDF links *)

(** A resolved URL is a PDF link when, lower-cased, it ends in [.pdf]. *)
Lemma find_pdfs_spec (urljoin : string → string → string)
    (page : soup) (url : string) (g : globals) :
  let g' := find_pdfs urljoin page url g in
  ∃ new,
    pdf_links g' = pdf_links g ++ new
    ∧ (NoDup (pdf_links g) → NoDup (pdf_links g'))
    ∧ Forall (λ u, ends_with ".pdf" (Text.lower u) = true) new
    ∧ ∀ href, href ∈ anchors page →
              ends_with ".pdf" (Text.lower (urljoin url href)) = true →
              urljoin url href ∈ pdf_links g'.
Proof.
  unfold find_pdfs. revert g.
  induction (anchors page) as [|href hrefs IH]; intros g.
  - exists []. rewrite app_nil_r. split; [done|]. split; [done|].
    split; [constructor|]. by intros href ?%elem_of_nil.
  - cbn [foldl].
    destruct (ends_with ".pdf" (Text.lower (urljoin url href))) eqn:Hpdf;
      simpl.
    + case_bool_decide as Hnew; simpl.
      * destruct (IH (Globals (visited_urls g)
                        (pdf_links g ++ [urljoin url href]) (files g)
                        (requested g))) as (new & -> & Hnd & Hall & Hin).
        simpl in *. exists (urljoin url href :: new).
        rewrite <- (assoc (++)). split; [done|]. split; [|split].
        -- intros Hg. rewrite (assoc (++)). apply Hnd.
           apply NoDup_app. split; [done|]. split; [|apply NoDup_singleton].
           by intros x Hx ->%list_elem_of_singleton.
        -- by constructor.
        -- intros href' [->|Hh]%elem_of_cons Hp; [|by apply Hin].
           set_solver.
      * destruct (IH g) as (new & -> & Hnd & Hall & Hin).
        exists new. split; [done|]. split; [done|]. split; [done|].
        intros href' [->|Hh]%elem_of_cons Hp; [|by apply Hin].
        apply elem_of_app. left. first [done | by apply dec_stable].
    + destruct (IH g) as (new & -> & Hnd & Hall & Hin).
      exists new. split; [done|]. split; [done|]. split; [done|].
      intros href' [->|Hh]%elem_of_cons Hp; [congruence|by apply Hin].
Qed.

(** X22: scanning a page for PDF links only appends to the list, keeps it
    free of duplicates, appends only URLs that end in [.pdf] whatever the
    letter case, and leaves every such link of the page in the list. *)
Theorem find_pdfs_collects (urljoin : string → string → string)
    (page : soup) (url : string) (g : globals) :
  let g' := find_pdfs urljoin page url g in
  ∃ new,
    pdf_links g' = pdf_links g ++ new
    ∧ (NoDup (pdf_links g) → NoDup (pdf_links g'))
    ∧ Forall (λ u, ends_with ".pdf" (Text.lower u) = true) new
    ∧ ∀ href, href ∈ anchors page →
              ends_with ".pdf" (Text.lower (urljoin url href)) = true →
              urljoin url href ∈ pdf_links g'.
Proof. apply find_pdfs_spec. Qed.
End CrawlFacts.

(** ** What a crawl keeps true *)

Module CrawlInvariant.
Import Scraper.

Lemma enqueue_exact (links queue : list string) (g : globals) :
  let st' := enqueue links queue g in
  requested st'.2 = requested g ∧ pdf_links st'.2 = pdf_links g
  ∧ files st'.2 = files g
  ∧ ∃ new, st'.1 = queue ++ new ∧ NoDup new
           ∧ (∀ u, u ∈ new → (u ∉ visited_urls g) ∧ u ∈ links)
           ∧ visited_urls st'.2 = visited_urls g ∪ list_to_set new.
Proof.
  unfold enqueue. revert queue g.
  induction links as [|link links IH]; intros queue g; simpl.
  - split; [done|]. split; [done|]. split; [done|].
    exists []. rewrite app_nil_r. split; [done|]. split; [constructor|].
    split; [by intros u ?%elem_of_nil|set_solver].
  - case_decide as Hin.
    + destruct (IH queue g) as (-> & -> & -> & new & -> & ? & Hnew & ->).
      split; [done|]. split; [done|]. split; [done|].
      exists new. split; [done|]. split; [done|]. split; [|done].
      intros u Hu. destruct (Hnew u Hu). split; [done|by right].
    + destruct (IH (queue ++ [link])
                   (Globals (visited_urls g ∪ {[link]}) (pdf_links g)
                            (files g) (requested g)))
        as (-> & -> & -> & new & -> & Hnd & Hnew & ->).
      simpl in *. split; [done|]. split; [done|]. split; [done|].
      exists (link :: new). rewrite <- (assoc (++)). split; [done|].
      split; [|split].
      * apply NoDup_cons. split; [|done].
        intros Hl. destruct (Hnew _ Hl). set_solver.
      * intros u [->|Hu]%elem_of_cons; [split; [done|by left]|].
        destruct (Hnew _ Hu). split; [set_solver|by right].
      * set_solver.
Qed.

Lemma save_content_files (urlparse : string → parsed)
    (url content : string) (g : globals) :
  files g ⊆ files (save_content urlparse url content g).
Proof.
  unfold save_content. destruct (files g !! _) eqn:Hfile; [done|]. simpl.
  by apply insert_subseteq.
Qed.

Lemma NoDup_length_size (l : list string) (X : gset string) :
  NoDup l → (∀ u, u ∈ l → u ∈ X) → length l ≤ size X.
Proof.
  intros Hnd Hsub. rewrite <- (size_list_to_set (C := gset string) l Hnd).
  apply subseteq_size. set_solver.
Qed.

Section Site.
Variable http_get : string → option soup.
Variable urljoin : string → string → string.
Variable urlparse : string → parsed.
Variable start : string.
Variable P : string → Prop.
Variable files0 : gmap string string.

(** Every link a page can contribute satisfies [P]. *)
Hypothesis targets :
  ∀ url page href,
    http_get url = Some page → href ∈ anchors page →
    is_valid urlparse (strip_fragment (urljoin url href)) = true →
    P (strip_fragment (urljoin url href)).

Lemma get_all_links_targets (url : string) (g : globals) (link : string) :
  link ∈ (get_all_links http_get urljoin urlparse url g).1.1 → P link.
Proof using targets.
  unfold get_all_links.
  destruct (http_get url) as [page|] eqn:Hget; simpl;
    [|by intros ?%elem_of_nil].
  rewrite elem_of_elements.
  assert (∀ hrefs (acc : gset string),
            (∀ h, h ∈ hrefs → h ∈ anchors page) →
            (∀ x, x ∈ acc → P x) →
            ∀ x, x ∈ foldl (λ links href,
                   let full_url := strip_fragment (urljoin url href) in
                   if is_valid urlparse full_url
                      && bool_decide (full_url ∉ visited_urls g)
                   then links ∪ {[full_url]} else links) acc hrefs → P x)
    as Hfold.
  { induction hrefs as [|h hrefs IH]; intros acc Hsub Hacc x; [apply Hacc|].
    cbn [foldl]. apply IH; [intros; apply Hsub; by right|].
    cbv zeta. destruct (is_valid urlparse _) eqn:Hvalid; simpl; [|done].
    case_bool_decide; [|done].
    intros y [Hy| ->%elem_of_singleton]%elem_of_union; [by apply Hacc|].
    apply (targets url page h); [done| |done]. apply Hsub. by left. }
  apply Hfold; [done|]. by intros x ?%elem_of_empty.
Qed.

Lemma crawl_step_invariant (st st' : list string * globals) :
  crawl_step http_get urljoin urlparse st = Some st' →
  crawl_invariant start P files0 st → crawl_invariant start P files0 st'.
Proof using targets.
  destruct st as [[|current_url queue] g]; [done|].
  unfold crawl_invariant, admitted, crawl_step. simpl.
  pose proof (ScraperFacts.get_all_links_globals http_get urljoin urlparse
                current_url g) as Hg.
  pose proof (get_all_links_targets current_url g) as Hlinks.
  destruct (get_all_links http_get urljoin urlparse current_url g)
    as [[links page] g1].
  simpl in Hg, Hlinks. destruct Hg as (Hreq & Hsub & Hsup & Hpdf & Hfiles).
  intros Hstep (Hnd & Hvis & HP & Hf0 & Hpnd & Hpall).
  assert (visited_urls g1 = visited_urls g) as Hv1.
  { apply set_eq. intros x. split; [|by apply Hsub].
    intros [?| ->%elem_of_singleton]%Hsup%elem_of_union; [done|].
    rewrite Hvis. set_solver. }
  destruct page as [page|].
  - set (text := Text.strip (collapse_ws (join_space (paragraphs page)))) in *.
    set (g2 := if decide (text = "") then g1
               else save_content urlparse current_url text g1) in *.
    assert (requested g2 = requested g1 ∧ visited_urls g2 = visited_urls g1
            ∧ pdf_links g2 = pdf_links g1 ∧ files g1 ⊆ files g2)
      as (Hr2 & Hv2 & Hp2 & Hf2).
    { subst g2. case_decide; [done|].
      destruct (ScraperFacts.save_content_globals urlparse current_url text g1)
        as (? & ? & ?).
      pose proof (save_content_files urlparse current_url text g1). done. }
    destruct (ScraperFacts.find_pdfs_globals urljoin page current_url g2)
      as (Hr3 & Hv3 & Hf3).
    destruct (CrawlFacts.find_pdfs_spec urljoin page current_url g2)
      as (newpdf & Hp3 & Hpnd3 & Hpall3 & _).
    set (g3 := find_pdfs urljoin page current_url g2) in *.
    destruct (enqueue_exact links queue g3)
      as (Hr4 & Hp4 & Hf4 & new & Hq & Hndnew & Hnew & Hv4).
    injection Hstep as <-.
    rewrite Hr4, Hp4, Hf4, Hq, Hv4, Hr3, Hv3, Hf3, Hp3, Hr2, Hv2, Hp2,
      Hreq, Hv1, Hpdf.
    assert ((requested g ++ [current_url]) ++ queue ++ new
            = (requested g ++ current_url :: queue) ++ new) as ->
      by by rewrite <- !(assoc (++)).
    split; [|split; [|split; [|split; [|split]]]].
    + apply NoDup_app. split; [done|]. split; [|done].
      intros u Hu Hun. destruct (Hnew u Hun) as [Hfresh _].
      apply Hfresh. rewrite Hv3, Hv2, Hv1, Hvis. set_solver.
    + rewrite Hvis. set_solver.
    + apply Forall_app. split; [done|]. apply Forall_forall.
      intros u Hu. right. apply Hlinks. by apply Hnew.
    + etrans; [exact Hf0|]. rewrite <- Hfiles. exact Hf2.
    + rewrite <- Hpdf, <- Hp2, <- Hp3. apply Hpnd3. by rewrite Hp2, Hpdf.
    + apply Forall_app. split; [done|done].
  - injection Hstep as <-. simpl. rewrite Hreq, Hv1, Hpdf, Hfiles.
    assert ((requested g ++ [current_url]) ++ queue
            = requested g ++ current_url :: queue) as ->
      by by rewrite <- !(assoc (++)).
    done.
Qed.

Lemma crawl_start_invariant :
  crawl_invariant start P files0 (crawl_start start (initial files0)).
Proof.
  unfold crawl_invariant, admitted. simpl.
  split; [apply NoDup_singleton|]. split; [set_solver|].
  split; [apply Forall_singleton; by left|].
  split; [done|]. split; constructor.
Qed.

(** The loop after [n] turns: it has ended, or [n] more URLs have been
    requested and the queue is not empty; the invariant holds. *)
Lemma crawl_loop_invariant (n : nat) (st : list string * globals) :
  crawl_invariant start P files0 st →
  match crawl_loop http_get urljoin urlparse n st with
  | inl g => crawl_invariant start P files0 ([], g)
  | inr st' =>
      crawl_invariant start P files0 st' ∧ st'.1 ≠ []
      ∧ length (requested st'.2) = length (requested st.2) + n
  end.
Proof using targets.
  revert st. induction n as [|n IH]; intros st Hst.
  - destruct st as [[|u queue] g]; simpl; [done|].
    split; [done|]. split; [done|lia].
  - cbn [crawl_loop].
    destruct (crawl_step http_get urljoin urlparse st) as [st'|] eqn:Hstep.
    + pose proof (crawl_step_invariant st st' Hstep Hst) as Hst'.
      specialize (IH st' Hst').
      assert (length (requested st'.2) = S (length (requested st.2))) as Hlen.
      { destruct st as [[|u queue] g]; [done|]. unfold crawl_step in Hstep.
        pose proof (ScraperFacts.get_all_links_globals http_get urljoin
                      urlparse u g) as (Hreq & _).
        destruct (get_all_links http_get urljoin urlparse u g)
          as [[links page] g1]. simpl in Hreq.
        destruct page as [page|]; injection Hstep as <-; simpl.
        - destruct (enqueue_exact links queue
                      (find_pdfs urljoin page u
                         (if decide (Text.strip (collapse_ws
                                 (join_space (paragraphs page))) = "")
                          then g1
                          else save_content urlparse u
                                 (Text.strip (collapse_ws
                                    (join_space (paragraphs page)))) g1)))
            as (-> & _).
          destruct (ScraperFacts.find_pdfs_globals urljoin page u
                      (if decide (Text.strip (collapse_ws
                              (join_space (paragraphs page))) = "")
                       then g1
                       else save_content urlparse u
                              (Text.strip (collapse_ws
                                 (join_space (paragraphs page)))) g1))
            as (-> & _).
          case_decide.
          + rewrite Hreq, length_app. simpl. lia.
          + destruct (ScraperFacts.save_content_globals urlparse u
                        (Text.strip (collapse_ws
                           (join_space (paragraphs page)))) g1) as (-> & _).
            rewrite Hreq, length_app. simpl. lia.
        - rewrite Hreq, length_app. simpl. lia. }
      destruct (crawl_loop http_get urljoin urlparse n st') as [g|st''];
        [done|].
      destruct IH as (? & ? & ->). split; [done|]. split; [done|lia].
    + apply ScraperFacts.crawl_step_None in Hstep.
      destruct st as [queue g]. simpl in *. by subst queue.
Qed.
End Site.
End CrawlInvariant.

(** X23: a crawl stays on the site: every URL it requests or queues,
    other than the start URL, passed the validity test (scheme http or
    https, same host as the base URL) and has no fragment. *)
Theorem crawl_stays_on_site (http_get : string → option Scraper.soup)
    (urljoin : string → string → string)
    (urlparse : string → Scraper.parsed)
    (n : nat) (start_url : string) (files0 : gmap string string) :
  let on_site (u : string) :=
    u = start_url
    ∨ (Scraper.is_valid urlparse u = true ∧ Text.contains "#" u = false) in
  match Scraper.crawl http_get urljoin urlparse n start_url
          (Scraper.initial files0) with
  | inl g => Forall on_site (Scraper.requested g)
  | inr (queue, g) => Forall on_site (Scraper.requested g ++ queue)
  end.
Proof.
  intros on_site. unfold Scraper.crawl.
  pose proof (CrawlInvariant.crawl_loop_invariant http_get urljoin urlparse
                start_url
                (λ u, Scraper.is_valid urlparse u = true
                      ∧ Text.contains "#" u = false) files0) as Hloop.
  specialize (Hloop ltac:(by intros url page href _ _ Hvalid; split;
                            [|apply CrawlFacts.strip_fragment_prefix]) n _
                (CrawlInvariant.crawl_start_invariant start_url _ files0)).
  destruct (Scraper.crawl_loop _ _ _ n _) as [g|[queue g]].
  - destruct Hloop as (_ & _ & Hall & _). unfold Scraper.admitted in Hall.
    simpl in Hall. by rewrite app_nil_r in Hall.
  - by destruct Hloop as ((_ & _ & Hall & _) & _).
Qed.

(** X24: a crawl never removes or overwrites a file that was in the output
    directory when it began, and its PDF list never holds a URL twice nor
    a URL that does not end in [.pdf] (whatever the letter case). *)
Theorem crawl_keeps_files_and_pdfs (http_get : string → option Scraper.soup)
    (urljoin : string → string → string)
    (urlparse : string → Scraper.parsed)
    (n : nat) (start_url : string) (files0 : gmap string string) :
  let kept (g : Scraper.globals) :=
    files0 ⊆ Scraper.files g
    ∧ NoDup (Scraper.pdf_links g)
    ∧ Forall (λ u, Scraper.ends_with ".pdf" (Text.lower u) = true)
             (Scraper.pdf_links g) in
  match Scraper.crawl http_get urljoin urlparse n start_url
          (Scraper.initial files0) with
  | inl g => kept g
  | inr (queue, g) => kept g
  end.
Proof.
  intros kept. unfold Scraper.crawl.
  pose proof (CrawlInvariant.crawl_loop_invariant http_get urljoin urlparse
                start_url (λ _, True) files0 ltac:(done) n _
                (CrawlInvariant.crawl_start_invariant start_url _ files0))
    as Hloop.
  destruct (Scraper.crawl_loop _ _ _ n _) as [g|[queue g]].
  - by destruct Hloop as (_ & _ & _ & ? & ? & ?).
  - by destruct Hloop as ((_ & _ & _ & ? & ? & ?) & _).
Qed.

(** X25: the visited set is at every turn the set of the URLs requested or
    queued, and after [n] turns of a crawl that has not ended exactly [n]
    URLs have been requested; so when a crawl ends, the number of visited
    URLs it reports is the number of URLs it requested, failed requests
    included. *)
Theorem crawl_visited_count (http_get : string → option Scraper.soup)
    (urljoin : string → string → string)
    (urlparse : string → Scraper.parsed)
    (n : nat) (start_url : string) (files0 : gmap string string) :
  match Scraper.crawl http_get urljoin urlparse n start_url
          (Scraper.initial files0) with
  | inl g =>
      Scraper.visited_urls g = list_to_set (Scraper.requested g)
      ∧ size (Scraper.visited_urls g) = length (Scraper.requested g)
  | inr (queue, g) =>
      Scraper.visited_urls g = list_to_set (Scraper.requested g ++ queue)
      ∧ length (Scraper.requested g) = n
  end.
Proof.
  unfold Scraper.crawl.
  pose proof (CrawlInvariant.crawl_loop_invariant http_get urljoin urlparse
                start_url (λ _, True) files0 ltac:(done) n _
                (CrawlInvariant.crawl_start_invariant start_url _ files0))
    as Hloop.
  destruct (Scraper.crawl_loop _ _ _ n _) as [g|[queue g]].
  - destruct Hloop as (Hnd & Hvis & _). unfold Scraper.admitted in *.
    simpl in *. rewrite app_nil_r in *. split; [done|].
    rewrite Hvis. by apply size_list_to_set.
  - by destruct Hloop as ((_ & Hvis & _) & _ & Hlen).
Qed.

(** X26: on a site whose pages link to finitely many admissible URLs, the
    set [U], the crawl ends, cycles or not: within [size U + 1] turns,
    after at most [size U + 1] requests. *)
Theorem crawl_terminates_on_finite_site
    (http_get : string → option Scraper.soup)
    (urljoin : string → string → string)
    (urlparse : string → Scraper.parsed)
    (U : gset string) (start_url : string) (files0 : gmap string string) :
  (∀ url page href,
     http_get url = Some page → href ∈ Scraper.anchors page →
     Scraper.is_valid urlparse (Scraper.strip_fragment (urljoin url href))
     = true →
     Scraper.strip_fragment (urljoin url href) ∈ U) →
  ∃ g,
    Scraper.crawl http_get urljoin urlparse (size U + 1) start_url
      (Scraper.initial files0) = inl g
    ∧ length (Scraper.requested g) ≤ size U + 1.
Proof.
  intros Htargets. unfold Scraper.crawl.
  pose proof (CrawlInvariant.crawl_loop_invariant http_get urljoin urlparse
                start_url (λ u, u ∈ U) files0 Htargets (size U + 1) _
                (CrawlInvariant.crawl_start_invariant start_url _ files0))
    as Hloop.
  assert (∀ l : list string,
            NoDup l → Forall (λ u, u = start_url ∨ u ∈ U) l →
            length l ≤ size U + 1) as Hbound.
  { intros l Hnd Hall.
    etrans; [apply (CrawlInvariant.NoDup_length_size l ({[start_url]} ∪ U) Hnd)|].
    - intros u Hu. rewrite Forall_forall in Hall.
      destruct (Hall u Hu) as [->|?]; set_solver.
    - rewrite size_union_alt, size_singleton.
      pose proof (subseteq_size (U ∖ {[start_url]}) U). 
      assert (size (U ∖ {[start_url]}) ≤ size U) by (apply H; set_solver).
      lia. }
  destruct (Scraper.crawl_loop _ _ _ (size U + 1) _) as [g|[queue g]].
  - exists g. split; [done|].
    destruct Hloop as (Hnd & _ & Hall & _). unfold Scraper.admitted in *.
    simpl in *. rewrite app_nil_r in *. by apply Hbound.
  - destruct Hloop as ((Hnd & _ & Hall & _) & Hq & Hlen).
    unfold Scraper.admitted in *. simpl in *.
    pose proof (Hbound _ Hnd Hall) as Hle.
    rewrite length_app, Hlen in Hle.
    destruct queue; [done|]. simpl in Hle. lia.
Qed.

Lemma crawl_terminates_on_finite_site_witness :
  ∃ g,
    Scraper.crawl cycle_get Scraper.absolute_urljoin Scraper.plain_urlparse
      (size ({[ Scraper.base_url; "https://uom.edu.pk/about" ]}
             : gset string) + 1)
      Scraper.base_url (Scraper.initial ∅) = inl g
    ∧ length (Scraper.requested g)
      ≤ size ({[ Scraper.base_url; "https://uom.edu.pk/about" ]}
              : gset string) + 1.
Proof.
  apply crawl_terminates_on_finite_site.
  intros url page href Hget Hin Hvalid. unfold cycle_get in Hget.
  unfold Scraper.absolute_urljoin in *.
  repeat case_decide; [| |done].
  - injection Hget as <-. simpl in Hin.
    repeat (apply elem_of_cons in Hin as [->|Hin]);
      [apply (bool_decide_unpack _); by vm_compute..|by apply elem_of_nil in Hin].
  - injection Hget as <-. simpl in Hin.
    repeat (apply elem_of_cons in Hin as [->|Hin]);
      [apply (bool_decide_unpack _); by vm_compute..| |by apply elem_of_nil in Hin].
    by vm_compute in Hvalid.
Defined.

(** ** Link discovery *)

Module LinkFacts.
Import Scraper.

(** The set the loop of [get_all_links] builds. *)
Lemma links_loop (urljoin : string → string → string)
    (urlparse : string → parsed) (url : string) (visited : gset string)
    (hrefs : list string) (acc : gset string) (x : string) :
  x ∈ foldl (λ links href,
               let full_url := strip_fragment (urljoin url href) in
               if is_valid urlparse full_url
                  && bool_decide (full_url ∉ visited)
               then links ∪ {[full_url]} else links) acc hrefs
  ↔ x ∈ acc
    ∨ ∃ href, href ∈ hrefs ∧ x = strip_fragment (urljoin url href)
              ∧ is_valid urlparse x = true ∧ x ∉ visited.
Proof.
  revert acc. induction hrefs as [|h hrefs IH]; intros acc.
  - simpl. split; [by left|]. intros [?|(href & ?%elem_of_nil & _)]; done.
  - cbn [foldl]. rewrite IH. cbv zeta.
    destruct (is_valid urlparse (strip_fragment (urljoin url h))) eqn:Hv;
      simpl; [case_bool_decide as Hvis|].
    + rewrite elem_of_union, elem_of_singleton. split.
      * intros [[?| ->]|(href & ? & ?)]; [by left|..].
        -- right. exists h. split; [by left|done].
        -- right. exists href. split; [by right|done].
      * intros [?|(href & [->|?]%elem_of_cons & Hx)]; [by left; left|..].
        -- left. right. by destruct Hx.
        -- right. by exists href.
    + split.
      * intros [?|(href & ? & ?)]; [by left|].
        right. exists href. split; [by right|done].
      * intros [?|(href & [->|?]%elem_of_cons & Hx)];
          [by left| |right; by exists href].
        by destruct Hx as (-> & _ & ?).
    + split.
      * intros [?|(href & ? & ?)]; [by left|].
        right. exists href. split; [by right|done].
      * intros [?|(href & [->|?]%elem_of_cons & Hx)];
          [by left| |right; by exists href].
        destruct Hx as (-> & ? & _). congruence.
Qed.

(** X27: the links a fetched page yields have no duplicate and are
    exactly the anchors' resolved URLs, fragment removed, that pass the
    validity test and were not visited before; the page's own URL is then
    marked visited, nothing is removed from the visited set, and one
    request is logged.  A failed fetch yields no link and marks nothing. *)
Theorem get_all_links_spec (http_get : string → option soup)
    (urljoin : string → string → string) (urlparse : string → parsed)
    (url : string) (g : globals) :
  let r := get_all_links http_get urljoin urlparse url g in
  requested r.2 = requested g ++ [url]
  ∧ NoDup r.1.1
  ∧ match http_get url with
    | Some page =>
        r.1.2 = Some page
        ∧ visited_urls r.2 = visited_urls g ∪ {[url]}
        ∧ ∀ x, x ∈ r.1.1 ↔
               ∃ href, href ∈ anchors page
                       ∧ x = strip_fragment (urljoin url href)
                       ∧ is_valid urlparse x = true
                       ∧ x ∉ visited_urls g
    | None => r.1 = ([], None) ∧ visited_urls r.2 = visited_urls g
    end.
Proof.
  unfold get_all_links. destruct (http_get url) as [page|]; simpl.
  - split; [done|]. split; [apply NoDup_elements|].
    split; [done|]. split; [done|].
    intros x. rewrite elem_of_elements, links_loop.
    split; [|by right]. by intros [?%elem_of_empty|?].
  - split; [done|]. split; [constructor|done].
Qed.
End LinkFacts.

(** * Entities *)

Module EntityFacts.

Lemma occurs_in_refl (a : list ascii) : occurs_in a a.
Proof. exists [], []. by rewrite app_nil_r. Qed.

Lemma occurs_in_trans (a b c : list ascii) :
  occurs_in a b → occurs_in b c → occurs_in a c.
Proof.
  intros (p1 & q1 & ->) (p2 & q2 & ->).
  exists (p2 ++ p1), (q1 ++ q2). by rewrite <- !(assoc (++)).
Qed.

Lemma occurs_in_substring (a b : string) :
  occurs_in (Text.chars a) (Text.chars b) → substring a b.
Proof.
  intros (pre & post & Heq).
  exists (String.string_of_list_ascii pre), (String.string_of_list_ascii post).
  rewrite <- (TextFacts.of_list_chars b), Heq, !CrawlFacts.of_list_app.
  by rewrite TextFacts.of_list_chars.
Qed.

Lemma take_occurs (n : nat) (s : string) :
  occurs_in (Text.chars (Text.take n s)) (Text.chars s).
Proof.
  revert s. induction n as [|n IH]; intros [|c s]; simpl;
    try (by exists [], []); try (by eexists [], _).
  destruct (IH s) as (pre & post & Heq).
  change (Text.chars (String c s)) with (c :: Text.chars s).
  change (Text.chars (String c (Text.take n s)))
    with (c :: Text.chars (Text.take n s)).
  destruct pre as [|x pre].
  - exists [], post. simpl in *. by rewrite Heq at 1.
  - exists [], (drop (length (Text.chars (Text.take n s))) (Text.chars s)).
    simpl. f_equal.
    clear. revert s. induction n as [|n IH]; intros [|c s]; simpl; try done.
    change (Text.chars (String c s)) with (c :: Text.chars s).
    change (Text.chars (String c (Text.take n s)))
      with (c :: Text.chars (Text.take n s)).
    simpl. by rewrite <- IH.
Qed.

Lemma drop_occurs (n : nat) (s : string) :
  occurs_in (Text.chars (Re.drop n s)) (Text.chars s).
Proof.
  revert s. induction n as [|n IH]; intros [|c s]; simpl;
    try apply occurs_in_refl.
  destruct (IH s) as (pre & post & Heq).
  exists (c :: pre), post.
  change (Text.chars (String c s)) with (c :: Text.chars s).
  by rewrite Heq.
Qed.

Lemma lstrip_occurs (s : string) :
  occurs_in (Text.chars (Text.lstrip s)) (Text.chars s).
Proof.
  induction s as [|c s (pre & post & Heq)]; simpl; [apply occurs_in_refl|].
  destruct (Text.is_space c); [|apply occurs_in_refl].
  exists (c :: pre), post.
  change (Text.chars (String c s)) with (c :: Text.chars s).
  by rewrite Heq.
Qed.

Lemma chars_rev_app (s1 s2 : string) :
  Text.chars (String.rev_app s1 s2) = rev (Text.chars s1) ++ Text.chars s2.
Proof.
  revert s2. induction s1 as [|c s1 IH]; intros s2; simpl; [done|].
  rewrite IH. change (Text.chars (String c s1)) with (c :: Text.chars s1).
  change (Text.chars (String c s2)) with (c :: Text.chars s2).
  simpl. by rewrite <- (assoc (++)).
Qed.

Lemma chars_rev (s : string) : Text.chars (String.rev s) = rev (Text.chars s).
Proof.
  unfold String.rev. rewrite chars_rev_app.
  change (Text.chars "") with (@nil ascii). by rewrite app_nil_r.
Qed.

Lemma occurs_in_rev (a b : list ascii) :
  occurs_in a b → occurs_in (rev a) (rev b).
Proof.
  intros (pre & post & ->). exists (rev post), (rev pre).
  by rewrite !rev_app_distr, <- (assoc (++)).
Qed.

Lemma strip_occurs (s : string) :
  occurs_in (Text.chars (Text.strip s)) (Text.chars s).
Proof.
  unfold Text.strip, Text.rstrip.
  eapply occurs_in_trans; [|apply lstrip_occurs].
  rewrite chars_rev.
  rewrite <- (rev_involutive (Text.chars (Text.lstrip s))).
  apply occurs_in_rev. rewrite <- chars_rev. apply lstrip_occurs.
Qed.

Lemma search_occurs (atoms : list Re.atom) (q s : string) (lens : list nat) :
  Re.search atoms q = Some (s, lens) →
  occurs_in (Text.chars s) (Text.chars q).
Proof.
  induction q as [|c q IH]; simpl.
  - destruct (Re.match_here atoms ""); [|done].
    intros [= <- _]. apply occurs_in_refl.
  - destruct (Re.match_here atoms (String c q)).
    + intros [= <- _]. apply occurs_in_refl.
    + intros (pre & post & Heq)%IH. exists (c :: pre), post.
      change (Text.chars (String c q)) with (c :: Text.chars q).
      by rewrite Heq.
Qed.

Lemma first_match_occurs {P : Type} (pattern_of : P → list Re.atom)
    (group : P → nat) (patterns : list P) (query v : string) :
  first_match pattern_of group patterns query = Some v →
  occurs_in (Text.chars v) (Text.chars query).
Proof.
  induction patterns as [|pat patterns IH]; simpl; [done|].
  destruct (Re.search (pattern_of pat) query) as [[s lens]|] eqn:Hs; [|done].
  intros [= <-].
  eapply occurs_in_trans; [apply strip_occurs|].
  eapply occurs_in_trans; [|by eapply search_occurs].
  unfold Re.group_from.
  eapply occurs_in_trans; [apply take_occurs | apply drop_occurs].
Qed.

(** X28: the only entities ever extracted are a person and a department,
    and the text of each occurs in the query as it stands. *)
Theorem extract_entities_from_query (query k v : string) :
  extract_entities query !! k = Some v →
  (k = "person" ∨ k = "department") ∧ substring v query.
Proof.
  unfold extract_entities.
  destruct (first_match id _ name_patterns query) as [person|] eqn:Hp;
    destruct (first_match _ _ dept_keywords query) as [dept|] eqn:Hd;
    intros Hk.
  - destruct (decide (k = "department")) as [->|Hkd].
    + rewrite lookup_insert_eq in Hk. injection Hk as <-.
      split; [by right|]. by eapply occurs_in_substring, first_match_occurs.
    + rewrite lookup_insert_ne in Hk by done.
      destruct (decide (k = "person")) as [->|Hkp].
      * rewrite lookup_insert_eq in Hk. injection Hk as <-.
        split; [by left|]. by eapply occurs_in_substring, first_match_occurs.
      * by rewrite lookup_insert_ne in Hk.
  - destruct (decide (k = "person")) as [->|Hkp].
    + rewrite lookup_insert_eq in Hk. injection Hk as <-.
      split; [by left|]. by eapply occurs_in_substring, first_match_occurs.
    + by rewrite lookup_insert_ne in Hk.
  - destruct (decide (k = "department")) as [->|Hkd].
    + rewrite lookup_insert_eq in Hk. injection Hk as <-.
      split; [by right|]. by eapply occurs_in_substring, first_match_occurs.
    + by rewrite lookup_insert_ne in Hk.
  - done.
Qed.

Lemma extract_entities_from_query_witness :
  extract_entities "Tell me about Dr. Ali Khan" !! "person"
  = Some "Dr. Ali Khan"
  ∧ substring "Dr. Ali Khan" "Tell me about Dr. Ali Khan".
Proof.
  assert (extract_entities "Tell me about Dr. Ali Khan" !! "person"
          = Some "Dr. Ali Khan") as Hk by (vm_compute; reflexivity).
  split; [exact Hk|].
  exact (proj2 (extract_entities_from_query _ _ _ Hk)).
Defined.
End EntityFacts.
